(** * textual_terminal/_terminal.py: the PTY terminal bridge

    A shallow embedding of [Terminal] (the widget: mode scanner, screen
    renderer, colour resolver) and of [TerminalEmulator] (the PTY session
    and its two queues), followed by the properties of the specification
    that were checked against them.

    Conventions.
    - A Python [str] is a [string]; every [ascii] stands for one code point
      of the Latin-1 range, in which the regular-expression class [\d] is
      exactly [0-9] and [a-zA-Z] are the ASCII letters.
    - Python integers that come from the protocol messages are [Z]; grid
      sizes and coordinates, which pyte and Textual keep non-negative, are
      [nat].
    - The libraries the file calls (rich's [Text] and [Style], pyte's
      [Screen], the file object of the PTY) are embedded as far as the code
      observes them. *)

From Stdlib Require Import Strings.String Strings.Ascii Lists.List.
From Stdlib Require Import ZArith Arith Bool Lia.
From Stdlib Require Import Numbers.DecimalString.
Import ListNotations.

Open Scope string_scope.
Open Scope nat_scope.

(** ** Characters and regular-expression classes *)

Definition code (c : ascii) : nat := nat_of_ascii c.

Definition in_range (lo hi : nat) (c : ascii) : bool :=
  (lo <=? code c) && (code c <=? hi).

(** [\d] *)
Definition is_digit (c : ascii) : bool := in_range 48 57 c.

(** [a-zA-Z] *)
Definition is_letter (c : ascii) : bool :=
  in_range 97 122 c || in_range 65 90 c.

(** [0-9a-f] under [re.IGNORECASE] *)
Definition is_hex_digit (c : ascii) : bool :=
  is_digit c || in_range 97 102 c || in_range 65 70 c.

(** [\d;] *)
Definition is_param_char (c : ascii) : bool :=
  is_digit c || Ascii.eqb c ";".

Definition ESC : ascii := ascii_of_nat 27.

(** [cls{n}] matched at the start of [s], as [re.match] does: nothing is
    required of what follows the [n] characters. *)
Fixpoint match_class_n (cls : ascii -> bool) (n : nat) (s : string) : bool :=
  match n with
  | 0 => true
  | S n' =>
      match s with
      | EmptyString => false
      | String c r => cls c && match_class_n cls n' r
      end
  end.

(** [str.startswith] *)
Fixpoint startswith (s p : string) {struct p} : bool :=
  match p with
  | EmptyString => true
  | String a p' =>
      match s with
      | EmptyString => false
      | String b s' => Ascii.eqb a b && startswith s' p'
      end
  end.

(** [str.removeprefix] *)
Fixpoint drop (n : nat) (s : string) : string :=
  match n, s with
  | 0, _ => s
  | S _, EmptyString => EmptyString
  | S n', String _ r => drop n' r
  end.

Definition removeprefix (s p : string) : string :=
  if startswith s p then drop (String.length p) s else s.

(** [str.split(sep)] for a one-character separator: the pieces between the
    separators, empty pieces included; never the empty list. *)
Fixpoint split (sep : ascii) (s : string) : list string :=
  match s with
  | EmptyString => [EmptyString]
  | String c r =>
      if Ascii.eqb c sep then EmptyString :: split sep r
      else match split sep r with
           | [] => [String c EmptyString]
           | p :: ps => String c p :: ps
           end
  end.

(** [x in list_of_str] *)
Definition mem (x : string) (l : list string) : bool :=
  existsb (String.eqb x) l.

(** [str.lower], on the ASCII letters. *)
Definition lower_char (c : ascii) : ascii :=
  if in_range 65 90 c then ascii_of_nat (code c + 32) else c.

Fixpoint lower (s : string) : string :=
  match s with
  | EmptyString => EmptyString
  | String c r => String (lower_char c) (lower r)
  end.

(** [needle in haystack] *)
Fixpoint contains (needle hay : string) : bool :=
  startswith hay needle ||
  match hay with
  | EmptyString => false
  | String _ r => contains needle r
  end.

(** ** rich: styles and styled text *)

Module Rich.

(** [rich.style.Style]: an attribute is either unset ([None]) or set. *)
Record Style := mkStyle {
  color : option string;
  bgcolor : option string;
  bold : option bool;
  italic : option bool;
  underline : option bool;
  strike : option bool;
  reverse : option bool;
  blink : option bool
}.

(** [Style()] *)
Definition null : Style :=
  mkStyle None None None None None None None None.

(** The style named ["reverse"], as [Style.parse] reads it. *)
Definition reverse_style : Style :=
  mkStyle None None None None None None (Some true) None.

Definition is_set {A} (o : option A) : bool :=
  match o with Some _ => true | None => false end.

(** [bool(style)]: a style is false when nothing is set in it. *)
Definition truthy (s : Style) : bool :=
  is_set (color s) || is_set (bgcolor s) || is_set (bold s) ||
  is_set (italic s) || is_set (underline s) || is_set (strike s) ||
  is_set (reverse s) || is_set (blink s).

Definition over {A} (base top : option A) : option A :=
  match top with Some _ => top | None => base end.

(** [base + top]: what [top] sets wins, the rest is kept from [base]. *)
Definition combine (base top : Style) : Style :=
  mkStyle (over (color base) (color top))
          (over (bgcolor base) (bgcolor top))
          (over (bold base) (bold top))
          (over (italic base) (italic top))
          (over (underline base) (underline top))
          (over (strike base) (strike top))
          (over (reverse base) (reverse top))
          (over (blink base) (blink top)).

(** [rich.text.Span] *)
Record Span := mkSpan {
  start : nat;
  stop : nat;
  style : Style
}.

(** [rich.text.Text]: the plain text and the spans in the order in which
    they were added. *)
Record Text := mkText {
  plain : string;
  spans : list Span
}.

(** [Text()] *)
Definition empty : Text := mkText EmptyString [].

(** The codes [Text.append] strips: bell, backspace, vertical tab, form
    feed and carriage return. *)
Definition is_control_code (c : ascii) : bool :=
  let n := code c in
  (n =? 7) || (n =? 8) || (n =? 11) || (n =? 12) || (n =? 13).

Fixpoint strip_control_codes (s : string) : string :=
  match s with
  | EmptyString => EmptyString
  | String c r =>
      if is_control_code c then strip_control_codes r
      else String c (strip_control_codes r)
  end.

(** [Text.append(str)] with no style. *)
Definition append (t : Text) (s : string) : Text :=
  mkText (plain t ++ strip_control_codes s) (spans t).

(** [Text.stylize(style, start, end)]: a false style, a start at or past
    the end of the text, or an empty range add nothing; the end is cut
    to the length of the text. *)
Definition stylize (t : Text) (sty : Style) (first last : nat) : Text :=
  if truthy sty then
    let len := String.length (plain t) in
    if (len <=? first) || (last <=? first) then t
    else mkText (plain t) (spans t ++ [mkSpan first (Nat.min len last) sty])
  else t.

Definition covers (p : nat) (sp : Span) : bool :=
  (start sp <=? p) && (p <? stop sp).

(** The style that rendering gives to position [p]: the styles of the
    spans over [p], combined in the order of the spans. *)
Definition style_at (t : Text) (p : nat) : Style :=
  fold_left combine (map style (filter (covers p) (spans t))) null.

End Rich.

(** ** pyte: the character grid *)

Module Pyte.

(** [pyte.screens.Char] *)
Record Char := mkChar {
  data : string;
  fg : string;
  bg : string;
  bold : bool;
  italics : bool;
  underscore : bool;
  strikethrough : bool;
  reverse : bool;
  blink : bool
}.

(** The cell of a position nothing was drawn on. *)
Definition default_char : Char :=
  mkChar " " "default" "default" false false false false false false.

Record Cursor := mkCursor { x : nat; y : nat }.

(** [pyte.Screen]: [buffer] is a dictionary of dictionaries with a
    default, so reading it is total. *)
Record Screen := mkScreen {
  lines : nat;
  columns : nat;
  buffer : nat -> nat -> Char;
  cursor : Cursor
}.

(** A buffer given by its rows. *)
Definition buffer_of (rows : list (list Char)) : nat -> nat -> Char :=
  fun y x => nth x (nth y rows []) default_char.

End Pyte.

Import Rich Pyte.

(** ** The messages of the two queues *)

(** What the widget puts on the emulator's [recv_queue]. *)
Inductive InMsg :=
| Stdin (text : string)
| SetSize (rows cols : Z)
| Click (x y button : Z)
| Scroll (direction : string) (x y : Z).

(** What the emulator puts on its [send_queue]. *)
Inductive OutMsg :=
| Setup
| Stdout (text : string)
| Disconnect.

(** ** TerminalEmulator: the PTY side *)

(** [str.encode()]: UTF-8. *)
Definition encode_char (c : ascii) : string :=
  if code c <? 128 then String c EmptyString
  else String (ascii_of_nat (192 + code c / 64))
              (String (ascii_of_nat (128 + code c mod 64)) EmptyString).

Fixpoint encode (s : string) : string :=
  match s with
  | EmptyString => EmptyString
  | String c r => encode_char c ++ encode r
  end.

(** An integer in an f-string. *)
Definition format_int (n : Z) : string :=
  NilEmpty.string_of_int (Z.to_int n).

(** The first [n] characters. *)
Fixpoint take (n : nat) (s : string) : string :=
  match n, s with
  | 0, _ => EmptyString
  | S _, EmptyString => EmptyString
  | S n', String c r => String c (take n' r)
  end.

(** What one [write(2)] on the file descriptor does with its buffer: it
    takes all of it, it takes the first [n] bytes only, or it fails. *)
Inductive WriteOutcome :=
| Full
| Short (n : nat)
| Broken.

(** The PTY as the emulator sees it through [self.fd] and [self.p_out]
    (opened unbuffered): the bytes the child was given, the window size
    set last, and what the next calls of [write(2)] will do, [Full] once
    the list is used up. *)
Record Pty := mkPty {
  delivered : string;
  window : option (Z * Z);
  script : list WriteOutcome
}.

Inductive Exn :=
| OSError
| StructError.

(** [self.p_out.write(payload)]: one [write(2)]; the number of bytes
    taken, which the callers drop, or the exception. *)
Definition fd_write (payload : string) (p : Pty) : Pty * (nat + Exn) :=
  match script p with
  | [] =>
      (mkPty (delivered p ++ payload) (window p) [],
       inl (String.length payload))
  | Full :: rest =>
      (mkPty (delivered p ++ payload) (window p) rest,
       inl (String.length payload))
  | Short n :: rest =>
      (mkPty (delivered p ++ take n payload) (window p) rest,
       inl (Nat.min n (String.length payload)))
  | Broken :: rest =>
      (mkPty (delivered p) (window p) rest, inr OSError)
  end.

(** One ["H"] of [struct.pack]: an unsigned 16-bit integer in the byte
    order of the machine (little-endian), or [struct.error]. *)
Definition pack_H (v : Z) : option string :=
  if ((0 <=? v) && (v <=? 65535))%Z then
    Some (String (ascii_of_nat (Z.to_nat (v mod 256)))
                 (String (ascii_of_nat (Z.to_nat (v / 256))) EmptyString))
  else None.

(** [struct.pack("HH", a, b)] *)
Definition pack_HH (a b : Z) : option string :=
  match pack_H a, pack_H b with
  | Some x, Some y => Some (x ++ y)
  | _, _ => None
  end.

(** [fcntl.ioctl(self.fd, termios.TIOCSWINSZ, winsize)]: the kernel reads
    [ws_row] and [ws_col] from the first four bytes. *)
Definition ioctl_TIOCSWINSZ (winsize : string) (p : Pty) : Pty :=
  match winsize with
  | String r0 (String r1 (String c0 (String c1 _))) =>
      mkPty (delivered p)
            (Some (Z.of_nat (code r0 + 256 * code r1),
                   Z.of_nat (code c0 + 256 * code c1)))
            (script p)
  | _ => p
  end.

(** The SGR mouse report [ESC [ < code ; x ; y final]. *)
Definition sgr_mouse (button_code : string) (x y : Z) (final : string)
  : string :=
  String ESC "[<" ++ button_code ++ ";" ++ format_int x ++ ";" ++
  format_int y ++ final.

(** A task of the event loop: created and not yet run, suspended at its
    [await], or finished (cancelled, or ended by an exception). *)
Inductive Task :=
| Pending
| Waiting
| Finished.

Record Emulator := mkEmulator {
  data_or_disconnect : option string;
  event : bool;
  (** [on_output] is registered as the reader of [p_out] *)
  reader : bool;
  run_task : Task;
  send_task : Task;
  (** the messages put on [send_queue], oldest first *)
  send_queue : list OutMsg;
  pty : Pty
}.

(** [TerminalEmulator.__init__] followed by [start], on an opened PTY. *)
Definition start (p : Pty) : Emulator :=
  mkEmulator None false false Pending Pending [] p.

(** A sequence of writes in one turn of the loop of [_run]: the first
    exception ends the turn. *)
Fixpoint write_all (payloads : list string) (p : Pty) : Pty * option Exn :=
  match payloads with
  | [] => (p, None)
  | b :: rest =>
      match fd_write b p with
      | (p', inl _) => write_all rest p'
      | (p', inr e) => (p', Some e)
      end
  end.

(** One turn of the [while True] of [_run] on the message [msg]: the PTY
    after it and the exception that left the loop, if any. *)
Definition dispatch (msg : InMsg) (p : Pty) : Pty * option Exn :=
  match msg with
  | Stdin text => write_all [encode text] p
  | SetSize rows cols =>
      match pack_HH rows cols with
      | Some winsize => (ioctl_TIOCSWINSZ winsize p, None)
      | None => (p, Some StructError)
      end
  | Click x y button =>
      let x := (x + 1)%Z in
      let y := (y + 1)%Z in
      if (button =? 1)%Z then
        write_all [encode (sgr_mouse "0" x y "M");
                   encode (sgr_mouse "0" x y "m")] p
      else (p, None)
  | Scroll direction x y =>
      let x := (x + 1)%Z in
      let y := (y + 1)%Z in
      write_all
        ((if String.eqb direction "up"
          then [encode (sgr_mouse "64" x y "M")] else []) ++
         (if String.eqb direction "down"
          then [encode (sgr_mouse "65" x y "M")] else []))%list p
  end.

(** What [self.p_out.read(4096).decode()] comes to in [on_output]. *)
Inductive ReadResult :=
| Decoded (text : string)
| UndecodableBytes
| ReadFailed.

(** The callback [on_output] of [_run]. *)
Definition on_output (r : ReadResult) (e : Emulator) : Emulator :=
  match r with
  | Decoded text =>
      mkEmulator (Some text) true (reader e) (run_task e) (send_task e)
                 (send_queue e) (pty e)
  | UndecodableBytes => e
  | ReadFailed =>
      mkEmulator None true false (run_task e) (send_task e)
                 (send_queue e) (pty e)
  end.

(** The start of [_run]: the reader is registered and [setup] is put on
    the queue before the task first suspends. *)
Definition run_begin (e : Emulator) : Emulator :=
  mkEmulator (data_or_disconnect e) (event e) true Waiting (send_task e)
             (send_queue e ++ [Setup]) (pty e).

(** One turn of the [while True] of [_run]. *)
Definition run_turn (msg : InMsg) (e : Emulator) : Emulator :=
  match dispatch msg (pty e) with
  | (p, None) =>
      mkEmulator (data_or_disconnect e) (event e) (reader e) Waiting
                 (send_task e) (send_queue e) p
  | (p, Some _) =>
      mkEmulator (data_or_disconnect e) (event e) (reader e) Finished
                 (send_task e) (send_queue e) p
  end.

(** One turn of the [while True] of [_send_data], once the event is
    set. *)
Definition send_data_turn (e : Emulator) : Emulator :=
  let message :=
    match data_or_disconnect e with
    | Some text => Stdout text
    | None => Disconnect
    end in
  mkEmulator (data_or_disconnect e) false (reader e) (run_task e) Waiting
             (send_queue e ++ [message]) (pty e).

(** [TerminalEmulator.stop] *)
Definition stop (e : Emulator) : Emulator :=
  mkEmulator (data_or_disconnect e) (event e) false Finished Finished
             (send_queue e) (pty e).

(** [_send_data] reaches [await self.event.wait()] with the event clear. *)
Definition send_data_wait (e : Emulator) : Emulator :=
  mkEmulator (data_or_disconnect e) (event e) (reader e) (run_task e)
             Waiting (send_queue e) (pty e).

(** What the event loop can do next. *)
Inductive Event :=
| RunStart                    (* [_run] is scheduled for the first time *)
| Readable (r : ReadResult)   (* the descriptor is readable *)
| Inbound (msg : InMsg)       (* [_run] is given the next message *)
| RelayWake                   (* [_send_data] is scheduled *)
| Stop.                       (* [stop] is called *)

(** One step of the event loop. A step that the loop cannot take (the
    reader is not registered, the task is finished or not at the await
    the step resumes) leaves the emulator as it is. *)
Definition step (e : Emulator) (ev : Event) : Emulator :=
  match ev with
  | RunStart =>
      match run_task e with
      | Pending => run_begin e
      | _ => e
      end
  | Readable r => if reader e then on_output r e else e
  | Inbound msg =>
      match run_task e with
      | Waiting => run_turn msg e
      | _ => e
      end
  | RelayWake =>
      match send_task e with
      | Finished => e
      | _ => if event e then send_data_turn e else send_data_wait e
      end
  | Stop => stop e
  end.

Definition run (evs : list Event) (e : Emulator) : Emulator :=
  fold_left step evs e.

(** *** Sample PTYs and the statements the emulator is checked against *)

(** A PTY that takes every write in full. *)
Definition pty0 : Pty := mkPty EmptyString None [].

(** A PTY whose next [write(2)] takes one byte only. *)
Definition pty_short : Pty := mkPty EmptyString None [Short 1].

(** The next [n] calls of [write(2)] take their buffers in full. *)
Fixpoint accepts (n : nat) (outcomes : list WriteOutcome) : bool :=
  match n, outcomes with
  | 0, _ => true
  | S _, [] => true
  | S n', Full :: rest => accepts n' rest
  | S _, _ :: _ => false
  end.

Definition is_ascii (c : ascii) : bool := code c <? 128.

Fixpoint all_chars (cls : ascii -> bool) (s : string) : bool :=
  match s with
  | EmptyString => true
  | String c r => cls c && all_chars cls r
  end.

Definition in_u16 (v : Z) : bool := ((0 <=? v) && (v <=? 65535))%Z.

(** "The ioctl is issued with rows and cols at least 1, or the message is
    rejected, and no error is left unhandled", for one message. *)
Definition resize_clamps (rows cols : Z) (p : Pty) : Prop :=
  snd (dispatch (SetSize rows cols) p) = None /\
  (window (fst (dispatch (SetSize rows cols) p)) = window p \/
   exists r c, window (fst (dispatch (SetSize rows cols) p)) = Some (r, c) /\
               (1 <= r)%Z /\ (1 <= c)%Z).

(** "All bytes of the payload reach the descriptor, unless it is
    unusable", for one message. *)
Definition stdin_delivered (text : string) (p : Pty) : Prop :=
  delivered (fst (dispatch (Stdin text) p)) = delivered p ++ encode text \/
  snd (dispatch (Stdin text) p) = Some OSError.

(** Neither [stop] nor a turn of [_send_data]. *)
Definition quiet (ev : Event) : bool :=
  match ev with
  | Stop | RelayWake => false
  | _ => true
  end.

(** What holds of the emulator after any sequence of steps. *)
Record Consistent (e : Emulator) : Prop := mkConsistent {
  pending_idle :
    run_task e = Pending ->
    reader e = false /\ event e = false /\ send_queue e = [] /\
    send_task e <> Finished;
  empty_slot_closed :
    event e = true -> data_or_disconnect e = None -> reader e = false;
  disconnect_closed :
    In Disconnect (send_queue e) -> reader e = false;
  reader_relayed :
    reader e = true -> send_task e <> Finished
}.

(** The emulator between a failed read and the next turn of
    [_send_data]: the slot is empty, the event is set, the reader is gone
    and the queue is still [q]. *)
Definition Armed (q : list OutMsg) (e : Emulator) : Prop :=
  data_or_disconnect e = None /\ event e = true /\ reader e = false /\
  send_task e <> Finished /\ run_task e <> Pending /\ send_queue e = q.

(** The emulator once nothing can wake [_send_data] any more. *)
Definition Silent (e : Emulator) : Prop :=
  reader e = false /\ event e = false /\ run_task e <> Pending.

(** The queue is empty, [_run] not having started, or starts with the one
    [Setup] it holds. *)
Definition setup_first (e : Emulator) : Prop :=
  send_queue e = [] /\ reader e = false /\ event e = false \/
  run_task e <> Pending /\
  exists rest, send_queue e = Setup :: rest /\ ~ In Setup rest.

(** A PTY whose next [write(2)] fails: the other end is gone. *)
Definition pty_broken : Pty := mkPty EmptyString None [Broken].

(** The step is a read of the descriptor that raises. *)
Definition read_fails (ev : Event) : bool :=
  match ev with
  | Readable ReadFailed => true
  | _ => false
  end.

(** The emulator as long as no read has raised: a set event has data
    behind it, the queue holds no [Disconnect], and the reader is
    registered while [_run] waits for a message. *)
Definition Intact (e : Emulator) : Prop :=
  (event e = true -> data_or_disconnect e <> None) /\
  ~ In Disconnect (send_queue e) /\
  (run_task e = Waiting -> reader e = true).

(** ** Terminal: the widget side *)

Section Widget.

(** [rich.color.Color.parse] accepts the colour name: when it does not,
    building a [Style] raises [ColorParseError]. *)
Variable color_parses : string -> bool.

(** [pyte.Stream.feed]: the grid parser. A [TypeError] it raises is
    caught and logged, the screen is left as the parser left it. *)
Variable feed : string -> Screen -> Screen.

(** What [pyte.Screen.resize] makes of the cells when the size changes. *)
Variable relayout : nat -> nat -> Screen -> nat -> nat -> Char.

(** [pyte.Screen.resize(lines, columns)]: a zero argument keeps the
    current value ([lines or self.lines]); the cursor is saved and
    restored. *)
Definition resize (new_lines new_columns : nat) (s : Screen) : Screen :=
  let l := if new_lines =? 0 then lines s else new_lines in
  let c := if new_columns =? 0 then columns s else new_columns in
  if (l =? lines s) && (c =? columns s) then s
  else mkScreen l c (relayout l c s) (cursor s).

(** The theme colours the widget uses. *)
Record Colors := mkColors {
  background : string;
  foreground : string;
  surface : string;
  accent : string
}.

(** What the widget reads of [self.app]. *)
Record App := mkApp {
  current_theme : option Colors;
  theme : string
}.

Variable app : App.

Record Terminal := mkTerminal {
  default_colors : option string;
  textual_colors : option Colors;
  ncol : nat;
  nrow : nat;
  mouse_tracking : bool;
  emulator_started : bool;
  _display : list Text;
  _screen : Screen
}.

(** [Terminal.initial_display] *)
Definition initial_display : list Text := [Rich.empty].

(** [Terminal.__init__] *)
Definition new_terminal (default_colors : option string) : Terminal :=
  mkTerminal default_colors None 80 24 false false initial_display
             (mkScreen 24 80 (fun _ _ => default_char) (mkCursor 0 0)).

(** *** Colour resolver *)

(** [Terminal.detect_color] *)
Definition detect_color (color : string) : string :=
  if String.eqb color "brown" then "yellow"
  else if String.eqb color "brightblack" then "#808080"
  else if match_class_n is_hex_digit 6 color then "#" ++ color
  else color.

(** [Terminal.detect_textual_colors] *)
Definition detect_textual_colors : Colors :=
  match current_theme app with
  | Some th => th
  | None =>
      let is_dark := contains "dark" (lower (theme app)) in
      mkColors (if is_dark then "#000000" else "#ffffff")
               (if is_dark then "#ffffff" else "#000000")
               (if is_dark then "#1e1e1e" else "#f0f0f0")
               "#0178d4"
  end.

(** [Terminal._get_textual_colors]: the colours and the cache after the
    call. *)
Definition _get_textual_colors (cache : option Colors)
  : Colors * option Colors :=
  match cache with
  | Some c => (c, cache)
  | None => let c := detect_textual_colors in (c, Some c)
  end.

(** [self.default_colors == "textual"] *)
Definition is_textual (dc : option string) : bool :=
  match dc with
  | Some mode => String.eqb mode "textual"
  | None => false
  end.

(** [Style(color=..., bgcolor=..., bold=...)] or [ColorParseError]. *)
Definition make_style (fgc bgc : string) (b : bool) : option Style :=
  if color_parses fgc && color_parses bgc
  then Some (mkStyle (Some fgc) (Some bgc) (Some b) None None None None None)
  else None.

(** [Terminal.char_rich_style]: the style and the colour cache after the
    call. *)
Definition char_rich_style (dc : option string) (cache : option Colors)
           (char : Char) : Style * option Colors :=
  let fgc := detect_color (fg char) in
  let bgc := detect_color (bg char) in
  let '(fgc, bgc, cache) :=
    if is_textual dc then
      let '(colors, cache) := _get_textual_colors cache in
      let bgc :=
        if String.eqb bgc "default" then background colors else bgc in
      let fgc :=
        if String.eqb fgc "default" then foreground colors else fgc in
      (fgc, bgc, cache)
    else (fgc, bgc, cache) in
  match make_style fgc bgc (Pyte.bold char) with
  | Some sty => (sty, cache)
  | None => (Rich.null, cache)
  end.

(** [Terminal.char_style_cmp] *)
Definition char_style_cmp (given other : Char) : bool :=
  String.eqb (fg given) (fg other) && String.eqb (bg given) (bg other) &&
  Bool.eqb (Pyte.bold given) (Pyte.bold other) &&
  Bool.eqb (italics given) (italics other) &&
  Bool.eqb (underscore given) (underscore other) &&
  Bool.eqb (strikethrough given) (strikethrough other) &&
  Bool.eqb (Pyte.reverse given) (Pyte.reverse other) &&
  Bool.eqb (Pyte.blink given) (Pyte.blink other).

(** *** Screen renderer *)

(** The variables of the loop over the columns of one row. *)
Record RowState := mkRow {
  line_text : Text;
  style_change_pos : nat;
  colors_cache : option Colors
}.

(** One turn of [for x in range(self._screen.columns)] in row [y]. *)
Definition column_step (dc : option string) (scr : Screen) (y : nat)
           (st : RowState) (x : nat) : RowState :=
  let line := buffer scr y in
  let char := line x in
  let text := Rich.append (line_text st) (data char) in
  let st :=
    if 0 <? x then
      let last_char := line (x - 1) in
      if negb (char_style_cmp char last_char) || (x =? columns scr - 1)
      then
        let '(last_style, cache) :=
          char_rich_style dc (colors_cache st) last_char in
        mkRow (stylize text last_style (style_change_pos st) (x + 1))
              x cache
      else mkRow text (style_change_pos st) (colors_cache st)
    else mkRow text (style_change_pos st) (colors_cache st) in
  if (Pyte.x (cursor scr) =? x) && (Pyte.y (cursor scr) =? y)
  then mkRow (stylize (line_text st) reverse_style x (x + 1))
             (style_change_pos st) (colors_cache st)
  else st.

(** The body of [for y in range(self._screen.lines)]: one display line. *)
Definition render_row (dc : option string) (scr : Screen) (y : nat)
           (cache : option Colors) : RowState :=
  fold_left (column_step dc scr y) (seq 0 (columns scr))
            (mkRow Rich.empty 0 cache).

Definition render_step (dc : option string) (scr : Screen)
           (acc : list Text * option Colors) (y : nat)
  : list Text * option Colors :=
  let st := render_row dc scr y (snd acc) in
  ((fst acc ++ [line_text st])%list, colors_cache st).

(** The snapshot built in [recv] from the screen, and the colour cache
    after it. *)
Definition render (dc : option string) (scr : Screen)
           (cache : option Colors) : list Text * option Colors :=
  fold_left (render_step dc scr) (seq 0 (lines scr)) ([], cache).

(** *** Mode scanner *)

Definition DECSET_PREFIX : string := String ESC "[?".

(** The longest prefix of [s] in the class, and the rest. *)
Fixpoint span_class (cls : ascii -> bool) (s : string) : string * string :=
  match s with
  | EmptyString => (EmptyString, EmptyString)
  | String c r =>
      if cls c then let '(a, b) := span_class cls r in (String c a, b)
      else (EmptyString, s)
  end.

(** [_re_ansi_sequence] matched at the start of [s]: the text matched
    and what follows it. The pattern is [ESC], an opening bracket, an
    optional question mark, digits and semicolons, one letter. Both
    repetitions are greedy and giving a character back never helps: a
    digit, a semicolon or a question mark is not a letter. *)
Definition match_ansi_sequence (s : string) : option (string * string) :=
  match s with
  | String e (String b r) =>
      if Ascii.eqb e ESC && Ascii.eqb b "[" then
        let '(q, r1) :=
          match r with
          | String c r' =>
              if Ascii.eqb c "?" then ("?", r') else (EmptyString, r)
          | EmptyString => (EmptyString, r)
          end in
        let '(params, r2) := span_class is_param_char r1 in
        match r2 with
        | String l r3 =>
            if is_letter l
            then Some (String e (String b (q ++ params ++ String l "")), r3)
            else None
        | EmptyString => None
        end
      else None
  | _ => None
  end.

(** [re.finditer(_re_ansi_sequence, chars)]: the matches from left to
    right, none overlapping another; [skip] counts the characters of
    the last match that are still to be passed. *)
Fixpoint finditer_from (skip : nat) (s : string) : list string :=
  match s with
  | EmptyString => []
  | String _ r =>
      match skip with
      | S k => finditer_from k r
      | 0 =>
          match match_ansi_sequence s with
          | Some (m, _) => m :: finditer_from (String.length m - 1) r
          | None => finditer_from 0 r
          end
      end
  end.

Definition finditer (chars : string) : list string := finditer_from 0 chars.

(** The body of the loop over the matches in [recv]. *)
Definition scan_sequence (tracking : bool) (sequence : string) : bool :=
  if startswith sequence DECSET_PREFIX then
    let parameters := split ";" (removeprefix sequence DECSET_PREFIX) in
    let tracking := if mem "1000h" parameters then true else tracking in
    if mem "1000l" parameters then false else tracking
  else tracking.

(** [mouse_tracking] after the loop over the matches in [chars]. *)
Definition scan_modes (chars : string) (tracking : bool) : bool :=
  fold_left scan_sequence (finditer chars) tracking.

(** *** Events of the widget *)

(** [Terminal.stop] *)
Definition stop_terminal (t : Terminal) : Terminal :=
  if emulator_started t then
    mkTerminal (default_colors t) (textual_colors t) (ncol t) (nrow t)
               (mouse_tracking t) false initial_display (_screen t)
  else t.

(** [Terminal.on_resize], for a widget of the given size: the widget
    after the call and the messages put on the queue. *)
Definition on_resize (width height : nat) (t : Terminal)
  : Terminal * list InMsg :=
  if emulator_started t then
    (mkTerminal (default_colors t) (textual_colors t) width height
                (mouse_tracking t) true (_display t)
                (resize height width (_screen t)),
     [SetSize (Z.of_nat height) (Z.of_nat width)])
  else (t, []).

(** [Terminal.on_click] *)
Definition on_click (x y button : Z) (t : Terminal) : list InMsg :=
  if emulator_started t && mouse_tracking t then [Click x y button] else [].

(** [Terminal.on_mouse_scroll_down] and [Terminal.on_mouse_scroll_up] *)
Definition on_mouse_scroll (direction : string) (x y : Z) (t : Terminal)
  : list InMsg :=
  if emulator_started t && mouse_tracking t then [Scroll direction x y]
  else [].

(** One turn of the loop of [Terminal.recv]: the widget after the
    message and the messages put on the queue. *)
Definition recv (message : OutMsg) (t : Terminal) : Terminal * list InMsg :=
  match message with
  | Setup => (t, [SetSize (Z.of_nat (nrow t)) (Z.of_nat (ncol t))])
  | Stdout chars =>
      let tracking := scan_modes chars (mouse_tracking t) in
      let scr := feed chars (_screen t) in
      let '(display, cache) :=
        render (default_colors t) scr (textual_colors t) in
      (mkTerminal (default_colors t) cache (ncol t) (nrow t) tracking
                  (emulator_started t) display scr, [])
  | Disconnect => (stop_terminal t, [])
  end.

(** *** What the renderer is checked against *)

(** The width a cell adds to the text of its line. *)
Definition cell_width (c : Char) : nat :=
  String.length (strip_control_codes (data c)).

(** Every cell of the grid holds one character. *)
Definition one_char_cells (scr : Screen) : Prop :=
  forall y x, y < lines scr -> x < columns scr ->
              cell_width (buffer scr y x) = 1.

(** The spans of the cursor overlay: those that set [reverse]. *)
Definition is_overlay (sp : Span) : bool :=
  match Rich.reverse (style sp) with
  | Some true => true
  | _ => false
  end.

Definition overlays (t : Text) : list Span := filter is_overlay (spans t).

(** Every span is a non-empty range inside the text. *)
Definition spans_inside (t : Text) : Prop :=
  Forall (fun sp => Rich.start sp < Rich.stop sp /\
                    Rich.stop sp <= String.length (plain t)) (spans t).

(** The row after its first [k] columns. *)
Definition row_upto (dc : option string) (scr : Screen) (y : nat)
           (cache : option Colors) (k : nat) : RowState :=
  fold_left (column_step dc scr y) (seq 0 k) (mkRow Rich.empty 0 cache).

(** The snapshot after its first [n] rows. *)
Definition render_upto (dc : option string) (scr : Screen)
           (cache : option Colors) (n : nat) : list Text * option Colors :=
  fold_left (render_step dc scr) (seq 0 n) ([], cache).

(** "The snapshot has [n] lines, each [width] columns wide." *)
Definition snapshot_is (n width : nat) (snapshot : list Text) : Prop :=
  List.length snapshot = n /\
  Forall (fun line => String.length (plain line) = width /\
                      spans_inside line) snapshot.

(** "The overlay is applied after the style of the run that covers the
    cell": in the spans of the line, in the order in which they were
    applied, no span over column [p] follows the overlay. *)
Fixpoint overlay_is_last (p : nat) (l : list Span) : bool :=
  match l with
  | [] => true
  | sp :: rest =>
      (if is_overlay sp then negb (existsb (covers p) rest) else true)
      && overlay_is_last p rest
  end.

(** The occurrence in [chars] of a private-mode sequence whose last
    parameter and final letter are [token]: [ESC [ ?], then nothing or
    parameters closed by a semicolon, then the token. *)
Definition decset_occurs (token chars : string) : Prop :=
  exists before params after,
    chars = before ++ DECSET_PREFIX ++ params ++ token ++ after /\
    all_chars is_param_char params = true /\
    (params = EmptyString \/
     exists params', params = params' ++ String ";" EmptyString).

(** The last private-mode sequence of [chars] that ends in one of the
    two tokens ends in [token]. *)
Definition last_decset (token chars : string) : Prop :=
  exists before params after,
    chars = before ++ DECSET_PREFIX ++ params ++ token ++ after /\
    all_chars is_param_char params = true /\
    (params = EmptyString \/
     exists params', params = params' ++ String ";" EmptyString) /\
    ~ decset_occurs "1000h" after /\ ~ decset_occurs "1000l" after.

(** The test of the loop body of the scanner on one matched sequence. *)
Definition names_token (token sequence : string) : bool :=
  startswith sequence DECSET_PREFIX &&
  mem token (split ";" (removeprefix sequence DECSET_PREFIX)).

(** The matches of [_re_ansi_sequence] found by trying every position of
    [s] in turn. *)
Fixpoint matches_at_positions (s : string) : list string :=
  match s with
  | EmptyString => []
  | String _ r =>
      match match_ansi_sequence s with
      | Some (m, _) => m :: matches_at_positions r
      | None => matches_at_positions r
      end
  end.

(** Some match in [chars] passes the test for [token]. *)
Definition decset_found (token chars : string) : bool :=
  existsb (names_token token) (matches_at_positions chars).

Definition not_esc (c : ascii) : bool := negb (Ascii.eqb c ESC).

Definition not_semicolon (c : ascii) : bool := negb (Ascii.eqb c ";").

(** *** Sample grids *)

(** A colour parser that takes every name. *)
Definition every_color : string -> bool := fun _ => true.

Definition dark_app : App := mkApp None "textual-dark".

(** The grid parser on a chunk that changes nothing. *)
Definition idle_feed : string -> Screen -> Screen := fun _ scr => scr.

(** A grid engine that keeps every cell at its position. *)
Definition keep_cells : nat -> nat -> Screen -> nat -> nat -> Char :=
  fun _ _ scr => buffer scr.

Definition red_cell (d : string) : Char :=
  mkChar d "red" "default" false false false false false false.

Definition blue_cell (d : string) : Char :=
  mkChar d "blue" "default" false false false false false false.

Definition red_style : Style :=
  mkStyle (Some "red") (Some "default") (Some false)
          None None None None None.

Definition blue_style : Style :=
  mkStyle (Some "blue") (Some "default") (Some false)
          None None None None None.

(** One row of three columns, the last cell of another colour; the
    cursor waits past the last column. *)
Definition row_red_red_blue : Screen :=
  mkScreen 1 3 (buffer_of [[red_cell "a"; red_cell "b"; blue_cell "c"]])
           (mkCursor 3 0).

(** One row of three columns, the colour changing after the first. *)
Definition row_red_blue_blue : Screen :=
  mkScreen 1 3 (buffer_of [[red_cell "a"; blue_cell "b"; blue_cell "c"]])
           (mkCursor 3 0).

(** One blank row of three columns, the cursor on its first cell. *)
Definition blank_row : Screen :=
  mkScreen 1 3 (fun _ _ => default_char) (mkCursor 0 0).

(** The widget of [new_terminal] once [start] was called. *)
Definition started_terminal : Terminal :=
  mkTerminal (Some "system") None 80 24 false true initial_display
             (mkScreen 24 80 (fun _ _ => default_char) (mkCursor 0 0)).

(** *** Keys, start and stop *)

(** [self.ctrl_keys] *)
Definition ctrl_keys : list (string * string) :=
  [("up", String ESC "OA"); ("down", String ESC "OB");
   ("right", String ESC "OC"); ("left", String ESC "OD");
   ("home", String ESC "OH"); ("end", String ESC "[F");
   ("delete", String ESC "[3~"); ("pageup", String ESC "[5~");
   ("pagedown", String ESC "[6~"); ("shift+tab", String ESC "[Z");
   ("f1", String ESC "OP"); ("f2", String ESC "OQ");
   ("f3", String ESC "OR"); ("f4", String ESC "OS");
   ("f5", String ESC "[15~"); ("f6", String ESC "[17~");
   ("f7", String ESC "[18~"); ("f8", String ESC "[19~");
   ("f9", String ESC "[20~"); ("f10", String ESC "[21~");
   ("f11", String ESC "[23~"); ("f12", String ESC "[24~");
   ("f13", String ESC "[25~"); ("f14", String ESC "[26~");
   ("f15", String ESC "[28~"); ("f16", String ESC "[29~");
   ("f17", String ESC "[31~"); ("f18", String ESC "[32~");
   ("f19", String ESC "[33~"); ("f20", String ESC "[34~")].

(** [dict.get(key)] *)
Fixpoint dict_get (key : string) (d : list (string * string))
  : option string :=
  match d with
  | [] => None
  | (k, v) :: rest => if String.eqb key k then Some v else dict_get key rest
  end.

(** What [on_key] reads of [events.Key]. *)
Record KeyEvent := mkKeyEvent {
  key : string;
  character : option string
}.

(** What [on_key] does: [event.stop()], [self.app.set_focus(None)],
    [self.on_escape()], and the messages put on the queue. *)
Record KeyOutcome := mkKeyOutcome {
  event_stopped : bool;
  focus_released : bool;
  escape_called : bool;
  key_messages : list InMsg
}.

(** The truth value of a string or [None]. *)
Definition nonempty (o : option string) : bool :=
  match o with
  | Some (String _ _) => true
  | _ => false
  end.

(** [a or b] *)
Definition or_else (a b : option string) : option string :=
  if nonempty a then a else b.

(** [Terminal.on_key]; [on_escape] tells whether [self.on_escape] is
    set. *)
Definition on_key (on_escape : bool) (event : KeyEvent) (t : Terminal)
  : KeyOutcome :=
  if negb (emulator_started t) then mkKeyOutcome false false false []
  else if String.eqb (key event) "ctrl+f1"
  then mkKeyOutcome false true false []
  else if String.eqb (key event) "escape" && on_escape
  then mkKeyOutcome true false true []
  else
    let char := or_else (dict_get (key event) ctrl_keys) (character event) in
    mkKeyOutcome true false false
                 (match char with
                  | Some (String c r) => [Stdin (String c r)]
                  | _ => []
                  end).

(** The widget with the attribute of its queues: [queues_set] tells
    whether [self.send_queue] is set. *)
Record Widget := mkWidget {
  terminal : Terminal;
  queues_set : bool
}.

(** [Terminal.start] *)
Definition start_widget (w : Widget) : Widget :=
  if emulator_started (terminal w) then w
  else
    let t := terminal w in
    mkWidget (mkTerminal (default_colors t) (textual_colors t) (ncol t)
                         (nrow t) (mouse_tracking t) true (_display t)
                         (_screen t))
             true.

(** [Terminal.stop]: the queues are left as they are. *)
Definition stop_widget (w : Widget) : Widget :=
  mkWidget (stop_terminal (terminal w)) (queues_set w).

(** [Terminal.send_input] *)
Definition send_input (text : string) (w : Widget) : list InMsg :=
  if queues_set w then [Stdin text] else [].

(** *** What the rest of the code is checked against *)

(** The theme colours a call of [_get_textual_colors] returns. *)
Definition theme_of (cache : option Colors) : Colors :=
  fst (_get_textual_colors cache).

(** The style [char_rich_style] gives to a cell. *)
Definition cell_style (dc : option string) (cache : option Colors)
           (ch : Char) : Style :=
  fst (char_rich_style dc cache ch).

(** The style [s] on column [p] of row [y], reversed under the cursor. *)
Definition with_cursor (scr : Screen) (y p : nat) (s : Style) : Style :=
  if (Pyte.x (cursor scr) =? p) && (Pyte.y (cursor scr) =? y)
  then combine s reverse_style else s.

(** The characters of the first [k] cells of row [y], as [Text.append]
    keeps them. *)
Fixpoint row_chars (scr : Screen) (y k : nat) : string :=
  match k with
  | 0 => EmptyString
  | S k' => row_chars scr y k' ++
            strip_control_codes (data (buffer scr y k'))
  end.

(** The style of column [p] of a row after some columns, the overlay
    left aside: [scp] is the start of the open run. *)
Definition run_style (dc : option string) (cache : option Colors)
           (scr : Screen) (y scp p : nat) : Style :=
  if p <? scp then cell_style dc cache (buffer scr y p)
  else if (0 <? scp) && (p =? scp)
       then cell_style dc cache (buffer scr y (scp - 1))
       else Rich.null.

(** A style of two colours and a bold flag, as [char_rich_style] builds
    it. *)
Definition sets_colors (s : Style) : Prop :=
  exists fgc bgc b,
    s = mkStyle (Some fgc) (Some bgc) (Some b) None None None None None.

(** The first half of [column_step]: the cell is appended and the run is
    closed where the style changes and in the last column. *)
Definition close_run (dc : option string) (scr : Screen) (y : nat)
           (st : RowState) (x : nat) : RowState :=
  let line := buffer scr y in
  let char := line x in
  let text := Rich.append (line_text st) (data char) in
  if 0 <? x then
    let last_char := line (x - 1) in
    if negb (char_style_cmp char last_char) || (x =? columns scr - 1)
    then
      let '(last_style, cache) :=
        char_rich_style dc (colors_cache st) last_char in
      mkRow (stylize text last_style (style_change_pos st) (x + 1))
            x cache
    else mkRow text (style_change_pos st) (colors_cache st)
  else mkRow text (style_change_pos st) (colors_cache st).

(** The second half of [column_step]: the overlay on the cell of the
    cursor. *)
Definition mark_cursor (scr : Screen) (y : nat) (st : RowState) (x : nat)
  : RowState :=
  if (Pyte.x (cursor scr) =? x) && (Pyte.y (cursor scr) =? y)
  then mkRow (stylize (line_text st) reverse_style x (x + 1))
             (style_change_pos st) (colors_cache st)
  else st.

(** The texts joined in order. *)
Fixpoint join (texts : list string) : string :=
  match texts with
  | [] => EmptyString
  | t :: rest => t ++ join rest
  end.

(** A colour parser that takes no name. *)
Definition no_color : string -> bool := fun _ => false.

Definition light_app : App := mkApp None "textual-light".

(** The emulator of [pty0] once [_run] has started. *)
Definition waiting_emulator : Emulator := step (start pty0) RunStart.

(** ** Properties of the widget *)

(** *** Strings *)

Lemma append_assoc (a b c : string) : (a ++ b) ++ c = a ++ (b ++ c).
Proof. induction a; simpl; congruence. Qed.

Lemma append_empty_r (a : string) : a ++ EmptyString = a.
Proof. induction a; simpl; congruence. Qed.

Lemma all_chars_app cls a b :
  all_chars cls (a ++ b) = all_chars cls a && all_chars cls b.
Proof.
  induction a as [|c a IH]; simpl; [reflexivity|].
  now rewrite IH, andb_assoc.
Qed.

(** *** Colour resolver *)

Lemma match_class_n_app cls n pre rest :
  String.length pre = n -> all_chars cls pre = true ->
  match_class_n cls n (pre ++ rest) = true.
Proof.
  revert n. induction pre as [|c pre IH]; intros n Hn Hall; subst n; simpl;
    [reflexivity|].
  simpl in Hall. apply andb_true_iff in Hall as [Hc Hp].
  rewrite Hc. simpl. now apply IH.
Qed.

(** Any token that starts with six hexadecimal digits is prefixed,
    whatever follows the six digits. *)
Lemma detect_color_hex_prefix pre rest :
  String.length pre = 6 -> all_chars is_hex_digit pre = true ->
  detect_color (pre ++ rest) = "#" ++ pre ++ rest.
Proof.
  intros Hlen Hhex. unfold detect_color.
  rewrite (match_class_n_app _ _ _ _ Hlen Hhex).
  do 6 (destruct pre as [|? pre]; [discriminate|]).
  destruct pre; [|discriminate].
  simpl in Hhex.
  repeat match goal with
         | H : _ && _ = true |- _ => apply andb_true_iff in H as [? H]
         end.
  destruct (String.eqb _ "brown") eqn:E1.
  { apply String.eqb_eq in E1. destruct rest; discriminate. }
  destruct (String.eqb _ "brightblack") eqn:E2; [|reflexivity].
  apply String.eqb_eq in E2. simpl in E2. injection E2 as -> -> -> -> -> -> ->.
  discriminate.
Qed.

(** C2. The resolver maps [brown] to [yellow] and [brightblack] to a fixed
    grey, prefixes six hexadecimal digits of either case, and returns
    [default] as it is; a token of seven hexadecimal digits is not
    returned as it is but prefixed too. *)
Theorem detect_color_matches_a_prefix :
  detect_color "brown" = "yellow" /\
  detect_color "brightblack" = "#808080" /\
  detect_color "aabbcc" = "#aabbcc" /\
  detect_color "AABBCC" = "#AABBCC" /\
  detect_color "default" = "default" /\
  detect_color "12c0000" = "#12c0000".
Proof. repeat split; reflexivity. Qed.

(** *** Style of a cell *)

Lemma make_style_shape fgc bgc b :
  make_style fgc bgc b = None \/
  make_style fgc bgc b =
  Some (mkStyle (Some fgc) (Some bgc) (Some b) None None None None None).
Proof. unfold make_style. destruct (_ && _); auto. Qed.

Lemma char_rich_style_shape dc cache ch :
  fst (char_rich_style dc cache ch) = Rich.null \/
  exists fgc bgc,
    fst (char_rich_style dc cache ch) =
    mkStyle (Some fgc) (Some bgc) (Some (Pyte.bold ch))
            None None None None None.
Proof.
  unfold char_rich_style.
  destruct (is_textual dc); [destruct (_get_textual_colors cache)|];
    match goal with
    | |- context [ make_style ?f ?b ?o ] =>
        destruct (make_style_shape f b o) as [-> | ->]; simpl; eauto
    end.
Qed.

Lemma char_rich_style_no_reverse dc cache ch :
  Rich.reverse (fst (char_rich_style dc cache ch)) = None.
Proof.
  destruct (char_rich_style_shape dc cache ch) as [-> | (f & b & ->)];
    reflexivity.
Qed.

(** *** Screen renderer *)

Lemma string_length_app (a b : string) :
  String.length (a ++ b) = String.length a + String.length b.
Proof. induction a; simpl; auto. Qed.

Lemma plain_stylize t sty a b : plain (stylize t sty a b) = plain t.
Proof.
  unfold stylize. destruct (truthy sty); [destruct (_ || _)|]; reflexivity.
Qed.

Lemma row_upto_S dc scr y cache k :
  row_upto dc scr y cache (S k) =
  column_step dc scr y (row_upto dc scr y cache k) k.
Proof. unfold row_upto. now rewrite seq_S, fold_left_app. Qed.

Lemma render_upto_S dc scr cache n :
  render_upto dc scr cache (S n) =
  render_step dc scr (render_upto dc scr cache n) n.
Proof. unfold render_upto. now rewrite seq_S, fold_left_app. Qed.

(** The text of a line is the text of its cells, column after column. *)
Lemma plain_column_step dc scr y st x :
  plain (line_text (column_step dc scr y st x)) =
  plain (line_text st) ++ strip_control_codes (data (buffer scr y x)).
Proof.
  unfold column_step.
  destruct (0 <? x);
    [destruct (negb _ || _); [destruct (char_rich_style _ _ _)|]|];
    destruct (_ && _); simpl; now rewrite ?plain_stylize.
Qed.

Lemma row_width dc scr y cache k :
  (forall x, x < columns scr -> cell_width (buffer scr y x) = 1) ->
  k <= columns scr ->
  String.length (plain (line_text (row_upto dc scr y cache k))) = k.
Proof.
  intros Hcells. induction k as [|k IH]; intros Hk; [reflexivity|].
  rewrite row_upto_S, plain_column_step, string_length_app, IH by lia.
  fold (cell_width (buffer scr y k)). rewrite Hcells by lia. lia.
Qed.

Lemma spans_inside_append t s : spans_inside t -> spans_inside (Rich.append t s).
Proof.
  unfold spans_inside, Rich.append. simpl. intros H.
  eapply Forall_impl; [|exact H]. simpl. intros sp [H1 H2].
  rewrite string_length_app. lia.
Qed.

Lemma spans_inside_stylize t sty a b :
  spans_inside t -> spans_inside (stylize t sty a b).
Proof.
  unfold spans_inside, stylize. intros H.
  destruct (truthy sty); [|exact H].
  destruct (_ || _) eqn:E; [exact H|]. simpl.
  apply orb_false_iff in E as [E1 E2].
  apply Nat.leb_gt in E1. apply Nat.leb_gt in E2.
  apply Forall_app. split; [exact H|].
  constructor; [|constructor]. simpl. lia.
Qed.

Lemma spans_inside_column_step dc scr y st x :
  spans_inside (line_text st) ->
  spans_inside (line_text (column_step dc scr y st x)).
Proof.
  intros H. unfold column_step.
  destruct (0 <? x);
    [destruct (negb _ || _); [destruct (char_rich_style _ _ _)|]|];
    destruct (_ && _); simpl;
    repeat apply spans_inside_stylize; now apply spans_inside_append.
Qed.

Lemma spans_inside_row dc scr y cache k :
  spans_inside (line_text (row_upto dc scr y cache k)).
Proof.
  induction k as [|k IH]; [constructor|].
  rewrite row_upto_S. now apply spans_inside_column_step.
Qed.

(** The snapshot has one line for each row of the grid, and line [y] is
    the row [y] rendered from some state of the colour cache. *)
Lemma render_upto_rows dc scr cache n :
  List.length (fst (render_upto dc scr cache n)) = n /\
  forall y, y < n ->
            exists c, nth y (fst (render_upto dc scr cache n)) Rich.empty =
                      line_text (render_row dc scr y c).
Proof.
  induction n as [|n [IHlen IHnth]]; [split; [reflexivity | lia]|].
  rewrite render_upto_S. unfold render_step. simpl. split.
  - rewrite length_app, IHlen. simpl. lia.
  - intros y Hy. destruct (Nat.eq_dec y n) as [-> | Hne].
    + exists (snd (render_upto dc scr cache n)).
      rewrite app_nth2 by lia. rewrite IHlen, Nat.sub_diag. reflexivity.
    + destruct (IHnth y) as [c Hc]; [lia|].
      exists c. rewrite app_nth1 by lia. exact Hc.
Qed.

Lemma render_rows dc scr cache :
  List.length (fst (render dc scr cache)) = lines scr /\
  forall y, y < lines scr ->
            exists c, nth y (fst (render dc scr cache)) Rich.empty =
                      line_text (render_row dc scr y c).
Proof. apply render_upto_rows. Qed.

Lemma render_Forall (P : Text -> Prop) dc scr cache :
  (forall y c, y < lines scr -> P (line_text (render_row dc scr y c))) ->
  Forall P (fst (render dc scr cache)).
Proof.
  intros H. destruct (render_rows dc scr cache) as [Hlen Hnth].
  apply Forall_forall. intros t Hin.
  destruct (In_nth _ _ Rich.empty Hin) as (y & Hy & <-).
  rewrite Hlen in Hy. destruct (Hnth y Hy) as [c ->]. now apply H.
Qed.

(** A snapshot is as high as the grid and as wide as its rows when every
    cell holds one character. *)
Lemma render_size dc scr cache :
  one_char_cells scr ->
  snapshot_is (lines scr) (columns scr) (fst (render dc scr cache)).
Proof.
  intros Hcells. split; [apply render_rows|].
  apply render_Forall. intros y c Hy. split.
  - apply row_width; [|lia]. intros x Hx. now apply Hcells.
  - apply spans_inside_row.
Qed.

Lemma resize_size l c scr :
  l <> 0 -> c <> 0 ->
  lines (resize l c scr) = l /\ columns (resize l c scr) = c.
Proof.
  intros Hl Hc. unfold resize.
  destruct (l =? 0) eqn:E1; [apply Nat.eqb_eq in E1; lia|].
  destruct (c =? 0) eqn:E2; [apply Nat.eqb_eq in E2; lia|].
  destruct ((l =? lines scr) && (c =? columns scr)) eqn:E; simpl; auto.
  apply andb_true_iff in E as [Ea Eb].
  apply Nat.eqb_eq in Ea. apply Nat.eqb_eq in Eb. auto.
Qed.

(** C3, as the code has it. When the widget is resized to 40 rows and 10
    columns it puts [SetSize 40 10] on the queue, and the snapshot
    rendered for the next output has 40 lines of 10 columns each, every
    run inside its line, when that output leaves the size of the grid
    alone and every cell holds one character. *)
Theorem set_size_rows_are_lines (t : Terminal) (chars : string) :
  emulator_started t = true ->
  let t1 := fst (on_resize 10 40 t) in
  lines (feed chars (_screen t1)) = lines (_screen t1) ->
  columns (feed chars (_screen t1)) = columns (_screen t1) ->
  one_char_cells (feed chars (_screen t1)) ->
  snd (on_resize 10 40 t) = [SetSize 40 10] /\
  snapshot_is 40 10 (_display (fst (recv (Stdout chars) t1))).
Proof.
  intros Hst t1. subst t1. unfold on_resize. rewrite Hst.
  cbn [fst snd _screen]. intros Hl Hc Hcells. split; [reflexivity|].
  destruct (resize_size 40 10 (_screen t)) as [Rl Rc]; [lia | lia |].
  rewrite Rl in Hl. rewrite Rc in Hc.
  pose proof (render_size (default_colors t) _ (textual_colors t) Hcells)
    as Hsize.
  rewrite Hl, Hc in Hsize.
  unfold recv. cbn [_screen default_colors textual_colors].
  destruct (render _ _ _) as [display cache']. exact Hsize.
Qed.

(** *** Cursor overlay *)

Lemma overlays_append t s : overlays (Rich.append t s) = overlays t.
Proof. reflexivity. Qed.

Lemma overlays_stylize_base t sty a b :
  Rich.reverse sty = None -> overlays (stylize t sty a b) = overlays t.
Proof.
  intros Hrev. unfold overlays, stylize.
  destruct (truthy sty); [|reflexivity].
  destruct (_ || _); [reflexivity|]. simpl.
  rewrite filter_app. simpl. unfold is_overlay at 2. simpl.
  rewrite Hrev. apply app_nil_r.
Qed.

Lemma overlays_stylize_reverse t x :
  x < String.length (plain t) ->
  overlays (stylize t reverse_style x (x + 1)) =
  (overlays t ++ [mkSpan x (x + 1) reverse_style])%list.
Proof.
  intros Hx. unfold overlays, stylize. simpl.
  destruct (String.length (plain t) <=? x) eqn:E1;
    [apply Nat.leb_le in E1; lia|].
  destruct (x + 1 <=? x) eqn:E2; [apply Nat.leb_le in E2; lia|].
  simpl. rewrite filter_app. simpl.
  now replace (Nat.min (String.length (plain t)) (x + 1)) with (x + 1) by lia.
Qed.

Lemma overlays_column_step dc scr y st x :
  String.length (plain (line_text st)) = x ->
  cell_width (buffer scr y x) = 1 ->
  overlays (line_text (column_step dc scr y st x)) =
  (overlays (line_text st) ++
   if (Pyte.x (cursor scr) =? x) && (Pyte.y (cursor scr) =? y)
   then [mkSpan x (x + 1) reverse_style] else [])%list.
Proof.
  intros Hlen Hw. unfold column_step.
  assert (L : forall t, plain t = plain (Rich.append (line_text st)
                                           (data (buffer scr y x))) ->
                        x < String.length (plain t)).
  { intros t ->. simpl. rewrite string_length_app, Hlen.
    unfold cell_width in Hw. rewrite Hw. lia. }
  destruct (0 <? x);
    [destruct (negb _ || _);
     [pose proof (char_rich_style_no_reverse
                    dc (colors_cache st) (buffer scr y (x - 1))) as Hrev;
      destruct (char_rich_style _ _ _) as [sty c]; simpl in Hrev|]|];
    destruct (_ && _); simpl;
    rewrite ?overlays_stylize_reverse
      by (apply L; now rewrite ?plain_stylize);
    rewrite ?overlays_stylize_base by assumption;
    rewrite ?overlays_append, ?app_nil_r; reflexivity.
Qed.

(** The overlays of a row after [k] columns: the cell of the cursor when
    the cursor is in this row and among these columns. *)
Lemma overlays_row dc scr y cache k :
  (forall x, x < columns scr -> cell_width (buffer scr y x) = 1) ->
  k <= columns scr ->
  overlays (line_text (row_upto dc scr y cache k)) =
  if (Pyte.x (cursor scr) <? k) && (Pyte.y (cursor scr) =? y)
  then [mkSpan (Pyte.x (cursor scr)) (Pyte.x (cursor scr) + 1) reverse_style]
  else [].
Proof.
  intros Hcells. induction k as [|k IH]; intros Hk; [reflexivity|].
  rewrite row_upto_S, overlays_column_step, IH;
    [| lia | apply row_width; [assumption | lia] | apply Hcells; lia].
  destruct (Nat.ltb_spec (Pyte.x (cursor scr)) k),
           (Nat.eqb_spec (Pyte.x (cursor scr)) k),
           (Nat.ltb_spec (Pyte.x (cursor scr)) (S k)),
           (Pyte.y (cursor scr) =? y); simpl; try lia; try reflexivity.
  subst k. reflexivity.
Qed.

(** No span of a row sets [reverse] but the overlay. *)
Lemma reverse_only_in_overlay_stylize t sty a b :
  Rich.reverse sty = None \/ sty = reverse_style ->
  Forall (fun sp => Rich.reverse (style sp) = None \/
                    style sp = reverse_style) (spans t) ->
  Forall (fun sp => Rich.reverse (style sp) = None \/
                    style sp = reverse_style) (spans (stylize t sty a b)).
Proof.
  intros Hsty H. unfold stylize.
  destruct (truthy sty); [|exact H].
  destruct (_ || _); [exact H|]. simpl.
  apply Forall_app. split; [exact H|].
  constructor; [exact Hsty | constructor].
Qed.

Lemma reverse_only_in_overlay_row dc scr y cache k :
  Forall (fun sp => Rich.reverse (style sp) = None \/
                    style sp = reverse_style)
         (spans (line_text (row_upto dc scr y cache k))).
Proof.
  induction k as [|k IH]; [constructor|].
  rewrite row_upto_S. unfold column_step.
  destruct (0 <? k);
    [destruct (negb _ || _);
     [pose proof (char_rich_style_no_reverse
                    dc (colors_cache (row_upto dc scr y cache k))
                    (buffer scr y (k - 1))) as Hrev;
      destruct (char_rich_style _ _ _) as [sty c]; simpl in Hrev|]|];
    destruct (_ && _); simpl;
    repeat (apply reverse_only_in_overlay_stylize; auto); exact IH.
Qed.

Lemma reverse_fold_combine l s :
  Rich.reverse (fold_left combine l s) =
  fold_left over (map Rich.reverse l) (Rich.reverse s).
Proof.
  revert s. induction l as [|a l IH]; intros s; [reflexivity|].
  simpl. now rewrite IH.
Qed.

Lemma fold_over_keeps_true (l : list (option bool)) :
  Forall (fun r => r = None \/ r = Some true) l ->
  fold_left over l (Some true) = Some true.
Proof.
  induction l as [|r l IH]; intros H; [reflexivity|].
  inversion H as [|? ? [-> | ->] Hl]; subst; simpl; now apply IH.
Qed.

Lemma fold_over_finds_true (l : list (option bool)) (o : option bool) :
  Forall (fun r => r = None \/ r = Some true) l ->
  In (Some true) l ->
  fold_left over l o = Some true.
Proof.
  revert o. induction l as [|r l IH]; intros o H Hin; [contradiction|].
  inversion H as [|? ? Hr Hl]; subst. simpl.
  destruct Hin as [-> | Hin].
  - simpl. now apply fold_over_keeps_true.
  - now apply IH.
Qed.

(** A cell under an overlay span is rendered reversed, wherever the
    overlay stands among the spans of the line. *)
Lemma style_at_overlay t p sp :
  Forall (fun sp => Rich.reverse (style sp) = None \/
                    style sp = reverse_style) (spans t) ->
  In sp (spans t) -> style sp = reverse_style -> covers p sp = true ->
  Rich.reverse (style_at t p) = Some true.
Proof.
  intros Hall Hin Hsty Hcov. unfold style_at.
  rewrite reverse_fold_combine. apply fold_over_finds_true.
  - apply Forall_forall. intros r Hr.
    apply in_map_iff in Hr as (sty & <- & Hs).
    apply in_map_iff in Hs as (sp' & <- & Hs').
    apply filter_In in Hs' as [Hs' _].
    rewrite Forall_forall in Hall. destruct (Hall sp' Hs') as [-> | ->]; auto.
  - apply in_map_iff. exists reverse_style. split; [reflexivity|].
    apply in_map_iff. exists sp. split; [exact Hsty|].
    apply filter_In. auto.
Qed.

(** C4, as the code has it. In a snapshot of a grid of one-character
    cells whose cursor is inside the grid, one span sets the overlay, in
    the line of the cursor and over the column of the cursor alone; no
    other span of any line sets [reverse], so the cell is rendered
    reversed whether the run that covers it is applied before or after
    the overlay. *)
Theorem cursor_overlay_on_one_cell
        (dc : option string) (cache : option Colors) (scr : Screen) :
  one_char_cells scr ->
  Pyte.x (cursor scr) < columns scr ->
  Pyte.y (cursor scr) < lines scr ->
  (forall y, y < lines scr ->
     overlays (nth y (fst (render dc scr cache)) Rich.empty) =
     if y =? Pyte.y (cursor scr)
     then [mkSpan (Pyte.x (cursor scr)) (Pyte.x (cursor scr) + 1)
                  reverse_style]
     else []) /\
  (forall y sp,
     In sp (spans (nth y (fst (render dc scr cache)) Rich.empty)) ->
     is_overlay sp = false -> Rich.reverse (style sp) = None) /\
  Rich.reverse (style_at (nth (Pyte.y (cursor scr))
                              (fst (render dc scr cache)) Rich.empty)
                         (Pyte.x (cursor scr))) = Some true.
Proof.
  intros Hcells Hx Hy.
  destruct (render_rows dc scr cache) as [Hlen Hnth].
  assert (Hov : forall y, y < lines scr ->
     overlays (nth y (fst (render dc scr cache)) Rich.empty) =
     if y =? Pyte.y (cursor scr)
     then [mkSpan (Pyte.x (cursor scr)) (Pyte.x (cursor scr) + 1)
                  reverse_style]
     else []).
  { intros y Hlt. destruct (Hnth y Hlt) as [c ->].
    unfold render_row. fold (row_upto dc scr y c (columns scr)).
    rewrite overlays_row; [|intros x Hxc; now apply Hcells | lia].
    apply Nat.ltb_lt in Hx. rewrite Hx. simpl.
    now rewrite Nat.eqb_sym. }
  assert (Hrev : forall y,
     Forall (fun sp => Rich.reverse (style sp) = None \/
                       style sp = reverse_style)
            (spans (nth y (fst (render dc scr cache)) Rich.empty))).
  { intros y. destruct (Nat.lt_ge_cases y (lines scr)) as [Hlt | Hge].
    - destruct (Hnth y Hlt) as [c ->]. apply reverse_only_in_overlay_row.
    - rewrite nth_overflow by lia. constructor. }
  split; [exact Hov | split].
  - intros y sp Hin Hno. specialize (Hrev y).
    rewrite Forall_forall in Hrev. destruct (Hrev sp Hin) as [H | H]; auto.
    unfold is_overlay in Hno. rewrite H in Hno. discriminate.
  - specialize (Hov _ Hy). rewrite Nat.eqb_refl in Hov.
    assert (Hin : In (mkSpan (Pyte.x (cursor scr)) (Pyte.x (cursor scr) + 1)
                             reverse_style)
                     (overlays (nth (Pyte.y (cursor scr))
                                    (fst (render dc scr cache)) Rich.empty)))
      by (rewrite Hov; now left).
    apply filter_In in Hin as [Hin _].
    eapply style_at_overlay; [apply Hrev | exact Hin | reflexivity |].
    unfold covers. simpl. rewrite Nat.leb_refl. simpl.
    apply Nat.ltb_lt. lia.
Qed.

(** *** Mode scanner *)

Lemma letter_not_param c : is_letter c = true -> is_param_char c = false.
Proof.
  destruct c as [[] [] [] [] [] [] [] []]; vm_compute; congruence.
Qed.

Lemma param_not_esc c : is_param_char c = true -> not_esc c = true.
Proof.
  destruct c as [[] [] [] [] [] [] [] []]; vm_compute; congruence.
Qed.

Lemma letter_not_esc c : is_letter c = true -> not_esc c = true.
Proof.
  destruct c as [[] [] [] [] [] [] [] []]; vm_compute; congruence.
Qed.

Lemma all_chars_impl (P Q : ascii -> bool) s :
  (forall c, P c = true -> Q c = true) ->
  all_chars P s = true -> all_chars Q s = true.
Proof.
  intros HPQ. induction s as [|c s IH]; simpl; [reflexivity|].
  intros H. apply andb_true_iff in H as [Hc Hs].
  now rewrite (HPQ c Hc), IH.
Qed.

Lemma span_class_app cls a c r :
  all_chars cls a = true -> cls c = false ->
  span_class cls (a ++ String c r) = (a, String c r).
Proof.
  intros Ha Hc. induction a as [|x a IH]; simpl.
  - now rewrite Hc.
  - simpl in Ha. apply andb_true_iff in Ha as [Hx Ha].
    now rewrite Hx, IH.
Qed.

Lemma span_class_spec cls s :
  s = fst (span_class cls s) ++ snd (span_class cls s) /\
  all_chars cls (fst (span_class cls s)) = true.
Proof.
  induction s as [|c s [IH1 IH2]]; simpl; [auto|].
  destruct (cls c) eqn:E; [|auto].
  destruct (span_class cls s) as [a b]. simpl in *.
  rewrite E, IH2. split; [congruence | reflexivity].
Qed.

(** The shape of a match: [ESC], the bracket, the question mark or
    nothing, parameter characters, one letter. *)
Lemma match_ansi_sequence_sound s m rest :
  match_ansi_sequence s = Some (m, rest) ->
  s = m ++ rest /\
  exists q ps l,
    m = String ESC (String "[" (q ++ ps ++ String l EmptyString)) /\
    (q = EmptyString \/ q = "?") /\
    all_chars is_param_char ps = true /\ is_letter l = true.
Proof.
  unfold match_ansi_sequence.
  destruct s as [|e [|b r]]; try discriminate.
  destruct (Ascii.eqb e ESC) eqn:Ee; [|discriminate].
  destruct (Ascii.eqb b "[") eqn:Eb; [|discriminate].
  apply Ascii.eqb_eq in Ee. apply Ascii.eqb_eq in Eb. subst e b. simpl.
  set (qr := match r with
             | String c r' =>
                 if Ascii.eqb c "?" then ("?", r') else (EmptyString, r)
             | EmptyString => (EmptyString, r)
             end).
  assert (Hq : r = fst qr ++ snd qr /\
               (fst qr = EmptyString \/ fst qr = "?")).
  { subst qr. destruct r as [|c r']; [auto|].
    destruct (Ascii.eqb c "?") eqn:Ec; simpl; [|auto].
    apply Ascii.eqb_eq in Ec. subst c. auto. }
  destruct qr as [q r1]. simpl in Hq. destruct Hq as [Hr Hq].
  pose proof (span_class_spec is_param_char r1) as [Hs1 Hs2].
  destruct (span_class is_param_char r1) as [ps r2]. simpl in Hs1, Hs2.
  destruct r2 as [|l r3]; [discriminate|].
  destruct (is_letter l) eqn:El; [|discriminate].
  intros H. injection H as <- <-. split.
  - simpl. rewrite Hr, Hs1, !append_assoc. reflexivity.
  - exists q, ps, l. auto.
Qed.

(** Every text of that shape is matched whole: the greedy reading is the
    only one. *)
Lemma match_ansi_sequence_decset ps l rest :
  all_chars is_param_char ps = true -> is_letter l = true ->
  match_ansi_sequence (DECSET_PREFIX ++ ps ++ String l rest) =
  Some (DECSET_PREFIX ++ ps ++ String l EmptyString, rest).
Proof.
  intros Hps Hl. unfold match_ansi_sequence, DECSET_PREFIX. simpl.
  rewrite (span_class_app _ _ _ _ Hps (letter_not_param _ Hl)).
  now rewrite Hl.
Qed.

Lemma drop_app a b : drop (String.length a) (a ++ b) = b.
Proof. induction a; simpl; auto. Qed.

Lemma finditer_from_drop k s :
  finditer_from k s = finditer_from 0 (drop k s).
Proof.
  revert s. induction k as [|k IH]; intros s; [now destruct s|].
  destruct s as [|c r]; [reflexivity|]. simpl. apply IH.
Qed.

Lemma match_needs_esc c r :
  not_esc c = true -> match_ansi_sequence (String c r) = None.
Proof.
  unfold not_esc. intros H. apply negb_true_iff in H.
  unfold match_ansi_sequence. destruct r; [reflexivity|]. now rewrite H.
Qed.

Lemma matches_skip a b :
  all_chars not_esc a = true ->
  matches_at_positions (a ++ b) = matches_at_positions b.
Proof.
  induction a as [|c a IH]; [reflexivity|].
  cbn [all_chars]. intros H. apply andb_true_iff in H as [Hc Ha].
  cbn [String.append matches_at_positions].
  rewrite (match_needs_esc _ _ Hc). now apply IH.
Qed.

Lemma match_body_no_esc q ps l :
  (q = EmptyString \/ q = "?") ->
  all_chars is_param_char ps = true -> is_letter l = true ->
  all_chars not_esc (String "[" (q ++ ps ++ String l EmptyString)) = true.
Proof.
  intros Hq Hps Hl.
  change (String "[" (q ++ ps ++ String l EmptyString))
    with ("[" ++ q ++ ps ++ String l EmptyString).
  rewrite !all_chars_app.
  rewrite (all_chars_impl _ _ _ param_not_esc Hps).
  simpl. rewrite (letter_not_esc _ Hl).
  destruct Hq as [-> | ->]; reflexivity.
Qed.

(** The matches of [finditer] do not overlap; as no match holds an [ESC]
    after its first character, they are the matches at every position. *)
Lemma finditer_positions_upto n s :
  String.length s <= n -> finditer s = matches_at_positions s.
Proof.
  unfold finditer. revert s.
  induction n as [|n IH]; intros s Hn.
  - destruct s; [reflexivity | simpl in Hn; lia].
  - destruct s as [|c r]; [reflexivity|].
    cbn [finditer_from matches_at_positions].
    destruct (match_ansi_sequence (String c r)) as [[m rest]|] eqn:Em.
    + destruct (match_ansi_sequence_sound _ _ _ Em)
        as (Hs & q & ps & l & -> & Hq & Hps & Hl).
      simpl in Hs. injection Hs as -> ->.
      f_equal. rewrite finditer_from_drop.
      set (body := String "[" (q ++ ps ++ String l EmptyString)) in *.
      change (String "[" ((q ++ ps ++ String l EmptyString) ++ rest))
        with (body ++ rest) in *.
      replace (String.length (String ESC body) - 1)
        with (String.length body) by (simpl; lia).
      rewrite drop_app.
      rewrite matches_skip by now apply match_body_no_esc.
      apply IH. simpl in Hn. rewrite string_length_app in Hn. lia.
    + apply IH. simpl in Hn. lia.
Qed.

Lemma finditer_positions s : finditer s = matches_at_positions s.
Proof. now apply (finditer_positions_upto (String.length s)). Qed.

Lemma split_pieces sep s p ps :
  split sep s = p :: ps ->
  (exists b, s = p ++ b /\
             (b = EmptyString \/ exists b', b = String sep b')) /\
  (forall tok, In tok ps ->
     exists a b, s = (a ++ String sep EmptyString) ++ tok ++ b /\
                 (b = EmptyString \/ exists b', b = String sep b')).
Proof.
  revert p ps. induction s as [|c r IH]; intros p ps; simpl.
  - intros H. injection H as <- <-. split; [exists EmptyString; auto|].
    intros tok [].
  - destruct (Ascii.eqb c sep) eqn:Ec.
    + apply Ascii.eqb_eq in Ec. subst c.
      intros H. injection H as <- <-. split.
      * exists (String sep r). split; [reflexivity | eauto].
      * intros tok Hin.
        destruct (split sep r) as [|p1 ps1] eqn:Er; [contradiction|].
        destruct (IH p1 ps1 eq_refl) as [(b & -> & Hb) Htail].
        destruct Hin as [<- | Hin].
        -- exists EmptyString, b. auto.
        -- destruct (Htail tok Hin) as (a & b2 & E & Hb2).
           exists (String sep a), b2. split; [|exact Hb2].
           simpl. now rewrite E.
    + destruct (split sep r) as [|p1 ps1] eqn:Er.
      * intros H. injection H as <- <-.
        exfalso. clear - Er. destruct r; simpl in Er;
          [discriminate|]. destruct (Ascii.eqb _ _); [discriminate|].
        destruct (split sep r); discriminate.
      * intros H. injection H as <- <-.
        destruct (IH p1 ps1 eq_refl) as [(b & E & Hb) Htail]. split.
        -- exists b. split; [simpl; now rewrite <- E | exact Hb].
        -- intros tok Hin. destruct (Htail tok Hin) as (a & b2 & E2 & Hb2).
           exists (String c a), b2. split; [|exact Hb2].
           simpl. now rewrite E2.
Qed.

(** A piece of [split] stands in the text between two separators or the
    ends of the text. *)
Lemma split_in sep tok s :
  In tok (split sep s) ->
  exists a b,
    s = a ++ tok ++ b /\
    (a = EmptyString \/ exists a', a = a' ++ String sep EmptyString) /\
    (b = EmptyString \/ exists b', b = String sep b').
Proof.
  destruct (split sep s) as [|p ps] eqn:E; [intros []|].
  destruct (split_pieces sep s p ps E) as [(b & Hs & Hb) Htail].
  intros [<- | Hin].
  - exists EmptyString, b. auto.
  - destruct (Htail tok Hin) as (a & b2 & E2 & Hb2).
    exists (a ++ String sep EmptyString), b2. eauto.
Qed.

Lemma split_no_sep sep tok :
  all_chars (fun c => negb (Ascii.eqb c sep)) tok = true ->
  split sep tok = [tok].
Proof.
  induction tok as [|c tok IH]; simpl; [reflexivity|].
  intros H. apply andb_true_iff in H as [Hc Ht].
  apply negb_true_iff in Hc. now rewrite Hc, IH.
Qed.

Lemma split_app_sep sep a r :
  exists p L, split sep (a ++ String sep r) = ((p :: L) ++ split sep r)%list.
Proof.
  induction a as [|c a (p & L & IH)]; simpl.
  - rewrite Ascii.eqb_refl. now exists EmptyString, [].
  - destruct (Ascii.eqb c sep).
    + exists EmptyString, (p :: L). now rewrite IH.
    + rewrite IH. simpl. now exists (String c p), L.
Qed.

(** A text without separator that follows a separator, or stands alone,
    is a piece of [split]. *)
Lemma split_last_piece sep a tok :
  a = EmptyString \/ (exists a', a = a' ++ String sep EmptyString) ->
  all_chars (fun c => negb (Ascii.eqb c sep)) tok = true ->
  In tok (split sep (a ++ tok)).
Proof.
  intros [-> | (a' & ->)] Htok.
  - simpl. rewrite (split_no_sep _ _ Htok). now left.
  - rewrite append_assoc. simpl.
    destruct (split_app_sep sep a' tok) as (p & L & ->).
    rewrite (split_no_sep _ _ Htok). apply in_or_app. right. now left.
Qed.

Lemma mem_In x l : mem x l = true <-> In x l.
Proof.
  unfold mem. rewrite existsb_exists. split.
  - intros (y & Hin & E). apply String.eqb_eq in E. now subst.
  - intros H. exists x. split; [exact H | apply String.eqb_refl].
Qed.

(** The one letter of a matched sequence is its last character. *)
Lemma unique_letter ps l u h b :
  ps ++ String l EmptyString = u ++ String h b ->
  all_chars is_param_char ps = true -> is_letter h = true ->
  b = EmptyString /\ l = h /\ ps = u.
Proof.
  revert u. induction ps as [|c ps IH]; intros u E Hps Hh; simpl in *.
  - destruct u as [|x u]; simpl in E.
    + injection E as -> <-. auto.
    + injection E as _ E. destruct u; discriminate.
  - apply andb_true_iff in Hps as [Hc Hps].
    destruct u as [|x u]; simpl in E.
    + injection E as -> _. rewrite (letter_not_param _ Hh) in Hc.
      discriminate.
    + injection E as -> E. destruct (IH u E Hps Hh) as (-> & -> & ->). auto.
Qed.

(** What the parameters of a matched sequence are when [split] finds in
    them a token that ends in a letter. *)
Lemma token_in_parameters tok h ps l :
  is_letter h = true -> all_chars is_param_char ps = true ->
  mem (tok ++ String h EmptyString)
      (split ";" (ps ++ String l EmptyString)) = true ->
  exists params,
    ps ++ String l EmptyString = params ++ tok ++ String h EmptyString /\
    all_chars is_param_char params = true /\
    (params = EmptyString \/
     exists params', params = params' ++ String ";" EmptyString).
Proof.
  intros Hh Hps Hmem. apply mem_In in Hmem.
  destruct (split_in _ _ _ Hmem) as (a & b & E & Ha & _).
  assert (E' : ps ++ String l EmptyString = (a ++ tok) ++ String h b)
    by now rewrite E, !append_assoc.
  destruct (unique_letter _ _ _ _ _ E' Hps Hh) as (-> & -> & ->).
  exists a. rewrite all_chars_app in Hps.
  apply andb_true_iff in Hps as [Hpa _].
  split; [now rewrite append_assoc | auto].
Qed.

Lemma removeprefix_decset rest :
  startswith (DECSET_PREFIX ++ rest) DECSET_PREFIX = true /\
  removeprefix (DECSET_PREFIX ++ rest) DECSET_PREFIX = rest.
Proof. split; reflexivity. Qed.

(** A match that starts with [DECSET_PREFIX] has the question mark. *)
Lemma match_with_prefix q ps l :
  (q = EmptyString \/ q = "?") ->
  all_chars is_param_char ps = true -> is_letter l = true ->
  startswith (String ESC (String "[" (q ++ ps ++ String l EmptyString)))
             DECSET_PREFIX = true ->
  q = "?".
Proof.
  intros [-> | ->] Hps Hl; [|reflexivity].
  unfold DECSET_PREFIX. cbn [String.append startswith].
  replace (Ascii.eqb ESC ESC) with true by reflexivity.
  replace (Ascii.eqb "[" "[") with true by reflexivity.
  cbn [andb]. intros H. exfalso.
  destruct ps as [|c ps]; cbn [String.append startswith] in H.
  - apply andb_true_iff in H as [E _].
    apply Ascii.eqb_eq in E. subst l. discriminate.
  - cbn [all_chars] in Hps. apply andb_true_iff in Hps as [Hc _].
    apply andb_true_iff in H as [E _].
    apply Ascii.eqb_eq in E. subst c. discriminate.
Qed.

Lemma matches_in chars m :
  In m (matches_at_positions chars) ->
  exists before after q ps l,
    chars = before ++ m ++ after /\
    m = String ESC (String "[" (q ++ ps ++ String l EmptyString)) /\
    (q = EmptyString \/ q = "?") /\
    all_chars is_param_char ps = true /\ is_letter l = true.
Proof.
  induction chars as [|c r IH]; [intros []|].
  cbn [matches_at_positions].
  destruct (match_ansi_sequence (String c r)) as [[m' rest]|] eqn:Em.
  - intros [<- | Hin].
    + destruct (match_ansi_sequence_sound _ _ _ Em)
        as (Hs & q & ps & l & Hm & Hq & Hps & Hl).
      exists EmptyString, rest, q, ps, l. auto.
    + destruct (IH Hin) as (before & after & q & ps & l & -> & H).
      exists (String c before), after, q, ps, l. auto.
  - intros Hin.
    destruct (IH Hin) as (before & after & q & ps & l & -> & H).
    exists (String c before), after, q, ps, l. auto.
Qed.

Lemma matches_app a rest :
  exists L, matches_at_positions (a ++ rest) =
            (L ++ matches_at_positions rest)%list.
Proof.
  induction a as [|c a [L IH]]; [now exists []|].
  cbn [String.append matches_at_positions].
  destruct (match_ansi_sequence _) as [[m r]|].
  - exists (m :: L). now rewrite IH.
  - exists L. exact IH.
Qed.

(** A matched sequence changes the flag only when it is an occurrence of
    one of the two tokens. *)
Lemma scan_sequence_unchanged chars m tracking :
  In m (matches_at_positions chars) ->
  ~ decset_occurs "1000h" chars -> ~ decset_occurs "1000l" chars ->
  scan_sequence tracking m = tracking.
Proof.
  intros Hin Hh Hl.
  destruct (matches_in _ _ Hin)
    as (before & after & q & ps & l & Hc & Hm & Hq & Hps & Hlet).
  unfold scan_sequence.
  destruct (startswith m DECSET_PREFIX) eqn:Es; [|reflexivity].
  rewrite Hm in Es. rewrite (match_with_prefix _ _ _ Hq Hps Hlet Es) in Hm.
  change (String ESC (String "[" ("?" ++ ps ++ String l EmptyString)))
    with (DECSET_PREFIX ++ ps ++ String l EmptyString) in Hm.
  rewrite Hm. rewrite (proj2 (removeprefix_decset _)).
  assert (No : forall tok h,
                 is_letter h = true ->
                 ~ decset_occurs (tok ++ String h EmptyString) chars ->
                 mem (tok ++ String h EmptyString)
                     (split ";" (ps ++ String l EmptyString)) = false).
  { intros tok h Hlh Hno.
    destruct (mem _ _) eqn:Emem; [|reflexivity]. exfalso. apply Hno.
    destruct (token_in_parameters _ _ _ _ Hlh Hps Emem)
      as (params & E & Hpar & Hend).
    exists before, params, after. split; [|auto].
    rewrite Hc, Hm, E, !append_assoc. reflexivity. }
  pose proof (No "1000" "h"%char eq_refl Hh) as N1.
  pose proof (No "1000" "l"%char eq_refl Hl) as N2.
  cbn [String.append] in N1, N2. now rewrite N1, N2.
Qed.

Lemma scan_modes_unchanged chars tracking :
  ~ decset_occurs "1000h" chars -> ~ decset_occurs "1000l" chars ->
  scan_modes chars tracking = tracking.
Proof.
  intros Hh Hl. unfold scan_modes. rewrite finditer_positions.
  assert (H : forall l,
             (forall m, In m l -> In m (matches_at_positions chars)) ->
             fold_left scan_sequence l tracking = tracking).
  { induction l as [|m l IH]; intros Hsub; [reflexivity|]. simpl.
    rewrite (scan_sequence_unchanged chars m tracking); auto.
    - apply IH. intros m' Hm'. apply Hsub. now right.
    - apply Hsub. now left. }
  apply H. auto.
Qed.

Lemma matches_of_decset ps l after :
  all_chars is_param_char ps = true -> is_letter l = true ->
  matches_at_positions (DECSET_PREFIX ++ ps ++ String l after) =
  (DECSET_PREFIX ++ ps ++ String l EmptyString)
    :: matches_at_positions after.
Proof.
  intros Hps Hl.
  pose proof (match_ansi_sequence_decset ps l after Hps Hl) as Hm.
  unfold DECSET_PREFIX in *. cbn [String.append] in *.
  cbn [matches_at_positions]. rewrite Hm. f_equal.
  rewrite (match_needs_esc "[" _ eq_refl).
  cbn [matches_at_positions].
  rewrite (match_needs_esc "?" _ eq_refl).
  rewrite matches_skip
    by (eapply all_chars_impl; [apply param_not_esc | exact Hps]).
  cbn [matches_at_positions].
  now rewrite (match_needs_esc _ _ (letter_not_esc _ Hl)).
Qed.

(** The flag after an occurrence of a token that nothing follows. *)
Lemma scan_modes_last tok h value before params after tracking :
  is_letter h = true ->
  all_chars is_param_char (params ++ tok) = true ->
  (forall t, scan_sequence t (DECSET_PREFIX ++ (params ++ tok) ++
                              String h EmptyString) = value) ->
  ~ decset_occurs "1000h" after -> ~ decset_occurs "1000l" after ->
  scan_modes (before ++ DECSET_PREFIX ++ params ++ (tok ++ String h
                EmptyString) ++ after) tracking = value.
Proof.
  intros Hh Hpt Hval Hnh Hnl.
  unfold scan_modes. rewrite finditer_positions.
  destruct (matches_app before
              (DECSET_PREFIX ++ params ++ (tok ++ String h EmptyString)
                             ++ after)) as [L ->].
  replace (DECSET_PREFIX ++ params ++ (tok ++ String h EmptyString)
                         ++ after)
    with (DECSET_PREFIX ++ (params ++ tok) ++ String h after)
    by now rewrite !append_assoc.
  rewrite (matches_of_decset _ _ after Hpt Hh).
  rewrite fold_left_app. cbn [fold_left]. rewrite Hval.
  rewrite <- finditer_positions.
  now apply scan_modes_unchanged.
Qed.

(** What the loop body does with a private-mode sequence that ends in the
    token [tok] and the letter [h]. *)
Lemma parameters_of_decset tok h params :
  is_letter h = true ->
  all_chars is_param_char (params ++ tok) = true ->
  all_chars not_semicolon (tok ++ String h EmptyString) = true ->
  (params = EmptyString \/
   exists params', params = params' ++ String ";" EmptyString) ->
  let sequence := DECSET_PREFIX ++ (params ++ tok) ++ String h EmptyString in
  startswith sequence DECSET_PREFIX = true /\
  mem (tok ++ String h EmptyString)
      (split ";" (removeprefix sequence DECSET_PREFIX)) = true /\
  forall tok' h',
    is_letter h' = true -> h <> h' ->
    mem (tok' ++ String h' EmptyString)
        (split ";" (removeprefix sequence DECSET_PREFIX)) = false.
Proof.
  intros Hh Hpt Hsemi Hend sequence. subst sequence.
  rewrite (proj2 (removeprefix_decset _)).
  split; [apply removeprefix_decset | split].
  - apply mem_In. rewrite append_assoc. now apply split_last_piece.
  - intros tok' h' Hh' Hne.
    destruct (mem _ _) eqn:E; [|reflexivity]. exfalso.
    destruct (token_in_parameters _ _ _ _ Hh' Hpt E) as (p & Ep & _).
    rewrite <- (append_assoc p) in Ep.
    destruct (unique_letter _ _ _ _ _ Ep Hpt Hh') as (_ & Heq & _).
    congruence.
Qed.

(** Whether a token occurs is decided by running the matcher. *)
Lemma decset_found_sound tok h chars :
  is_letter h = true ->
  decset_found (tok ++ String h EmptyString) chars = true ->
  decset_occurs (tok ++ String h EmptyString) chars.
Proof.
  intros Hh Hf. unfold decset_found in Hf.
  apply existsb_exists in Hf as (m & Hin & Hm).
  unfold names_token in Hm. apply andb_true_iff in Hm as [Es Hmem].
  destruct (matches_in _ _ Hin)
    as (before & after & q & ps & l & Hc & Em & Hq & Hps & Hlet).
  rewrite Em in Es. rewrite (match_with_prefix _ _ _ Hq Hps Hlet Es) in Em.
  change (String ESC (String "[" ("?" ++ ps ++ String l EmptyString)))
    with (DECSET_PREFIX ++ ps ++ String l EmptyString) in Em.
  rewrite Em, (proj2 (removeprefix_decset _)) in Hmem.
  destruct (token_in_parameters _ _ _ _ Hh Hps Hmem)
    as (params & E & Hpar & Hend).
  exists before, params, after. split; [|auto].
  rewrite Hc, Em, E, !append_assoc. reflexivity.
Qed.

Lemma decset_found_complete tok h chars :
  is_letter h = true -> all_chars is_param_char tok = true ->
  all_chars not_semicolon (tok ++ String h EmptyString) = true ->
  decset_occurs (tok ++ String h EmptyString) chars ->
  decset_found (tok ++ String h EmptyString) chars = true.
Proof.
  intros Hh Htok Hsemi (before & params & after & -> & Hpar & Hend).
  assert (Hpt : all_chars is_param_char (params ++ tok) = true)
    by now rewrite all_chars_app, Hpar, Htok.
  unfold decset_found.
  destruct (matches_app before
              (DECSET_PREFIX ++ params ++ (tok ++ String h EmptyString)
                             ++ after)) as [L ->].
  replace (DECSET_PREFIX ++ params ++ (tok ++ String h EmptyString)
                         ++ after)
    with (DECSET_PREFIX ++ (params ++ tok) ++ String h after)
    by now rewrite !append_assoc.
  rewrite (matches_of_decset _ _ after Hpt Hh).
  rewrite existsb_app. apply orb_true_iff. right.
  cbn [existsb]. apply orb_true_iff. left.
  destruct (parameters_of_decset tok h params Hh Hpt Hsemi Hend)
    as (Hs & Hin & _).
  unfold names_token. now rewrite Hs, Hin.
Qed.

Lemma last_decset_app pre tok chars :
  last_decset tok chars -> last_decset tok (pre ++ chars).
Proof.
  intros (before & params & after & -> & H).
  exists (pre ++ before), params, after.
  split; [now rewrite append_assoc | exact H].
Qed.

Lemma no_decset_in_empty token : ~ decset_occurs token EmptyString.
Proof.
  intros (before & params & after & E & _).
  destruct before; discriminate.
Qed.

(** A chunk in which a token occurs has a last occurrence. *)
Lemma last_decset_exists_upto n chars :
  String.length chars <= n ->
  decset_occurs "1000h" chars \/ decset_occurs "1000l" chars ->
  last_decset "1000h" chars \/ last_decset "1000l" chars.
Proof.
  revert chars. induction n as [|n IH]; intros chars Hn Hocc.
  - destruct chars; [|simpl in Hn; lia].
    destruct Hocc as [H | H]; now apply no_decset_in_empty in H.
  - assert (Step : forall tok,
               decset_occurs tok chars ->
               last_decset tok chars \/
               last_decset "1000h" chars \/ last_decset "1000l" chars).
    { intros tok (before & params & after & -> & Hpar & Hend).
      destruct (decset_found "1000h" after) eqn:Fh;
        [|destruct (decset_found "1000l" after) eqn:Fl].
      - right.
        assert (Hlen : String.length after <= n).
        { rewrite !string_length_app in Hn. simpl in Hn. lia. }
        destruct (IH after Hlen) as [H | H];
          [left; now apply (decset_found_sound "1000" "h"%char)| |];
          [left | right];
          rewrite <- !append_assoc; now apply last_decset_app.
      - right.
        assert (Hlen : String.length after <= n).
        { rewrite !string_length_app in Hn. simpl in Hn. lia. }
        destruct (IH after Hlen) as [H | H];
          [right; now apply (decset_found_sound "1000" "l"%char)| |];
          [left | right];
          rewrite <- !append_assoc; now apply last_decset_app.
      - left. exists before, params, after.
        repeat split; auto; intros Hocc'.
        + pose proof (decset_found_complete "1000" "h"%char after
                        eq_refl eq_refl eq_refl Hocc') as Hf.
          cbn [String.append] in Hf. congruence.
        + pose proof (decset_found_complete "1000" "l"%char after
                        eq_refl eq_refl eq_refl Hocc') as Hf.
          cbn [String.append] in Hf. congruence. }
    destruct Hocc as [H | H]; destruct (Step _ H) as [? | [? | ?]]; auto.
Qed.

Lemma last_decset_exists chars :
  decset_occurs "1000h" chars \/ decset_occurs "1000l" chars ->
  last_decset "1000h" chars \/ last_decset "1000l" chars.
Proof. now apply (last_decset_exists_upto (String.length chars)). Qed.

(** C5. The flag after a chunk was scanned. It is the flag before when
    the chunk holds no private-mode sequence [ESC [ ? ...] whose last
    parameter and final letter are [1000h] or [1000l], so a change of the
    flag tells of such a sequence; a chunk that holds one has a last one,
    and the flag is set when the last one ends in [1000h] and cleared when
    it ends in [1000l]; a sequence without the question mark leaves the
    flag as it is, whatever its parameters. *)
Theorem mouse_tracking_follows_decset (chars : string) (tracking : bool) :
  (~ decset_occurs "1000h" chars -> ~ decset_occurs "1000l" chars ->
   scan_modes chars tracking = tracking) /\
  (scan_modes chars tracking <> tracking ->
   decset_occurs "1000h" chars \/ decset_occurs "1000l" chars) /\
  (decset_occurs "1000h" chars \/ decset_occurs "1000l" chars ->
   last_decset "1000h" chars \/ last_decset "1000l" chars) /\
  (last_decset "1000h" chars -> scan_modes chars tracking = true) /\
  (last_decset "1000l" chars -> scan_modes chars tracking = false) /\
  (forall params l,
     all_chars is_param_char params = true -> is_letter l = true ->
     scan_sequence tracking
       (String ESC (String "[" (params ++ String l EmptyString))) =
     tracking).
Proof.
  split; [apply scan_modes_unchanged|].
  split; [|split; [apply last_decset_exists|]].
  { intros Hchanged.
    destruct (decset_found "1000h" chars) eqn:Fh;
      [left; now apply (decset_found_sound "1000" "h"%char)|].
    destruct (decset_found "1000l" chars) eqn:Fl;
      [right; now apply (decset_found_sound "1000" "l"%char)|].
    exfalso. apply Hchanged. apply scan_modes_unchanged; intros Hocc.
    - pose proof (decset_found_complete "1000" "h"%char chars
                    eq_refl eq_refl eq_refl Hocc) as Hf.
      cbn [String.append] in Hf. congruence.
    - pose proof (decset_found_complete "1000" "l"%char chars
                    eq_refl eq_refl eq_refl Hocc) as Hf.
      cbn [String.append] in Hf. congruence. }
  split; [|split].
  - intros (before & params & after & -> & Hpar & Hend & Hnh & Hnl).
    assert (Hpt : all_chars is_param_char (params ++ "1000") = true)
      by now rewrite all_chars_app, Hpar.
    apply (scan_modes_last "1000" "h"%char true); auto.
    intros t.
    destruct (parameters_of_decset "1000" "h"%char params
                eq_refl Hpt eq_refl Hend) as (Hs & Hin & Hout).
    unfold scan_sequence. rewrite Hs.
    cbn [String.append] in Hin. rewrite Hin.
    specialize (Hout "1000" "l"%char eq_refl).
    cbn [String.append] in Hout. rewrite Hout; [reflexivity | discriminate].
  - intros (before & params & after & -> & Hpar & Hend & Hnh & Hnl).
    assert (Hpt : all_chars is_param_char (params ++ "1000") = true)
      by now rewrite all_chars_app, Hpar.
    apply (scan_modes_last "1000" "l"%char false); auto.
    intros t.
    destruct (parameters_of_decset "1000" "l"%char params
                eq_refl Hpt eq_refl Hend) as (Hs & Hin & _).
    unfold scan_sequence. rewrite Hs.
    cbn [String.append] in Hin. now rewrite Hin.
  - intros params l Hpar Hl. unfold scan_sequence.
    destruct (startswith _ DECSET_PREFIX) eqn:Es; [|reflexivity].
    assert (Hq : EmptyString = "?").
    { apply (match_with_prefix EmptyString params l); auto. }
    discriminate.
Qed.

(** *** More on the colour resolver *)

Lemma detect_color_cases color :
  color = "brown" /\ detect_color color = "yellow" \/
  color = "brightblack" /\ detect_color color = "#808080" \/
  match_class_n is_hex_digit 6 color = true /\
  detect_color color = String "#" color \/
  String.eqb color "brown" = false /\
  String.eqb color "brightblack" = false /\
  match_class_n is_hex_digit 6 color = false /\ detect_color color = color.
Proof.
  unfold detect_color.
  destruct (String.eqb color "brown") eqn:E1.
  { apply String.eqb_eq in E1. auto. }
  destruct (String.eqb color "brightblack") eqn:E2.
  { apply String.eqb_eq in E2. auto. }
  destruct (match_class_n is_hex_digit 6 color) eqn:E3; auto 10.
Qed.

(** X8. Resolving a colour twice gives what resolving it once gives, and
    the resolved colour is [default] for the token [default] alone: the
    theme colours of the textual mode stand in for no other token. *)
Theorem detect_color_is_idempotent (color : string) :
  detect_color (detect_color color) = detect_color color /\
  String.eqb (detect_color color) "default" = String.eqb color "default".
Proof.
  destruct (detect_color_cases color)
    as [[-> ->] | [[-> ->] | [[Hhex ->] | (E1 & E2 & E3 & E)]]].
  - split; reflexivity.
  - split; reflexivity.
  - split; [reflexivity|].
    destruct (String.eqb color "default") eqn:Ed; [|reflexivity].
    apply String.eqb_eq in Ed. subst color. discriminate.
  - rewrite E. split; [exact E | reflexivity].
Qed.

(** *** More on the comparison of cells *)

Lemma char_style_cmp_spec a b :
  char_style_cmp a b = true <->
  fg a = fg b /\ bg a = bg b /\ Pyte.bold a = Pyte.bold b /\
  italics a = italics b /\ underscore a = underscore b /\
  strikethrough a = strikethrough b /\ Pyte.reverse a = Pyte.reverse b /\
  Pyte.blink a = Pyte.blink b.
Proof.
  unfold char_style_cmp.
  rewrite !andb_true_iff, !String.eqb_eq, !Bool.eqb_true_iff. tauto.
Qed.

Lemma char_style_cmp_refl a : char_style_cmp a a = true.
Proof. apply char_style_cmp_spec. tauto. Qed.

Lemma char_style_cmp_trans a b c :
  char_style_cmp a b = true -> char_style_cmp b c = true ->
  char_style_cmp a c = true.
Proof.
  rewrite !char_style_cmp_spec. intuition congruence.
Qed.

Lemma char_style_cmp_sym a b :
  char_style_cmp a b = true -> char_style_cmp b a = true.
Proof.
  rewrite !char_style_cmp_spec. intuition congruence.
Qed.

Lemma char_style_cmp_style dc cache a b :
  char_style_cmp a b = true -> cell_style dc cache a = cell_style dc cache b.
Proof.
  intros H. apply char_style_cmp_spec in H as (Hf & Hb & Hbo & _).
  unfold cell_style, char_rich_style. now rewrite Hf, Hb, Hbo.
Qed.

(** X9. The comparison that places the run boundaries is an equivalence
    of cells, and two cells it holds equal resolve to the same style. *)
Theorem char_style_cmp_is_an_equivalence
        (dc : option string) (cache : option Colors) (a b c : Char) :
  char_style_cmp a a = true /\
  (char_style_cmp a b = true -> char_style_cmp b a = true) /\
  (char_style_cmp a b = true -> char_style_cmp b c = true ->
   char_style_cmp a c = true) /\
  (char_style_cmp a b = true ->
   fst (char_rich_style dc cache a) = fst (char_rich_style dc cache b)).
Proof.
  split; [apply char_style_cmp_refl|].
  split; [apply char_style_cmp_sym|].
  split; [apply char_style_cmp_trans|].
  apply char_style_cmp_style.
Qed.

(** *** The colour cache *)

Lemma theme_of_get cache :
  theme_of (snd (_get_textual_colors cache)) = theme_of cache.
Proof. destruct cache; reflexivity. Qed.

Lemma char_rich_style_cache dc cache ch :
  theme_of (snd (char_rich_style dc cache ch)) = theme_of cache.
Proof.
  unfold char_rich_style.
  destruct (is_textual dc).
  - pose proof (theme_of_get cache) as H.
    destruct (_get_textual_colors cache) as [colors c'].
    destruct (make_style _ _ _); exact H.
  - destruct (make_style _ _ _); reflexivity.
Qed.

Lemma cell_style_theme dc c1 c2 ch :
  theme_of c1 = theme_of c2 -> cell_style dc c1 ch = cell_style dc c2 ch.
Proof.
  unfold theme_of, cell_style, char_rich_style. intros H.
  destruct (is_textual dc); [|now destruct (make_style _ _ _)].
  destruct (_get_textual_colors c1) as [t1 c1'].
  destruct (_get_textual_colors c2) as [t2 c2'].
  simpl in H. subst t2.
  now destruct (make_style _ _ _).
Qed.

Lemma column_step_cache dc scr y st x :
  theme_of (colors_cache (column_step dc scr y st x)) =
  theme_of (colors_cache st).
Proof.
  unfold column_step.
  destruct (0 <? x);
    [destruct (negb _ || _);
     [pose proof (char_rich_style_cache dc (colors_cache st)
                    (buffer scr y (x - 1))) as H;
      destruct (char_rich_style _ _ _) as [sty c]|]|];
    destruct (_ && _); simpl; auto.
Qed.

Lemma row_cache dc scr y cache k :
  theme_of (colors_cache (row_upto dc scr y cache k)) = theme_of cache.
Proof.
  induction k as [|k IH]; [reflexivity|].
  now rewrite row_upto_S, column_step_cache.
Qed.

Lemma render_upto_cache dc scr cache n :
  theme_of (snd (render_upto dc scr cache n)) = theme_of cache.
Proof.
  induction n as [|n IH]; [reflexivity|].
  rewrite render_upto_S. unfold render_step, render_row. simpl.
  fold (row_upto dc scr n (snd (render_upto dc scr cache n)) (columns scr)).
  now rewrite row_cache.
Qed.

(** Line [y] of the snapshot is row [y] rendered from a cache of the
    theme the snapshot was started with. *)
Lemma render_rows_theme dc scr cache y :
  y < lines scr ->
  exists c, theme_of c = theme_of cache /\
            nth y (fst (render dc scr cache)) Rich.empty =
            line_text (row_upto dc scr y c (columns scr)).
Proof.
  unfold render. fold (render_upto dc scr cache (lines scr)).
  generalize (lines scr) as n.
  induction n as [|n IH]; intros Hy; [lia|].
  rewrite render_upto_S. unfold render_step. simpl.
  pose proof (proj1 (render_upto_rows dc scr cache n)) as Hlen.
  destruct (Nat.eq_dec y n) as [-> | Hne].
  - exists (snd (render_upto dc scr cache n)).
    split; [apply render_upto_cache|].
    rewrite app_nth2 by lia. now rewrite Hlen, Nat.sub_diag.
  - destruct IH as (c & Hc & E); [lia|].
    exists c. split; [exact Hc|].
    rewrite app_nth1 by lia. exact E.
Qed.

(** *** The style of the runs *)

(** The two colours [char_rich_style] passes to [Style], and the style
    that comes back: empty when one of them does not parse. *)
Lemma char_rich_style_exact dc cache ch :
  let fgc :=
    if is_textual dc && String.eqb (detect_color (fg ch)) "default"
    then foreground (theme_of cache) else detect_color (fg ch) in
  let bgc :=
    if is_textual dc && String.eqb (detect_color (bg ch)) "default"
    then background (theme_of cache) else detect_color (bg ch) in
  fst (char_rich_style dc cache ch) =
  if color_parses fgc && color_parses bgc
  then mkStyle (Some fgc) (Some bgc) (Some (Pyte.bold ch))
               None None None None None
  else Rich.null.
Proof.
  unfold char_rich_style, theme_of, make_style.
  destruct (is_textual dc); cbn [andb].
  - destruct (_get_textual_colors cache) as [colors c]. cbn [fst].
    now destruct (color_parses _ && color_parses _).
  - now destruct (color_parses _ && color_parses _).
Qed.

Lemma stylize_styles (P : Style -> Prop) t sty a b :
  P sty ->
  Forall (fun sp => P (style sp)) (spans t) ->
  Forall (fun sp => P (style sp)) (spans (stylize t sty a b)).
Proof.
  intros Hsty H. unfold stylize.
  destruct (truthy sty); [|exact H].
  destruct (_ || _); [exact H|]. simpl.
  apply Forall_app. split; [exact H|].
  constructor; [exact Hsty | constructor].
Qed.

(** Every span of a row is the overlay of the cursor or a run in the
    style of one of the cells of the row. *)
Lemma row_span_styles dc scr y cache k :
  Forall (fun sp => style sp = reverse_style \/
                    exists x, x < k /\
                              style sp = cell_style dc cache (buffer scr y x))
         (spans (line_text (row_upto dc scr y cache k))).
Proof.
  induction k as [|k IH]; [constructor|].
  rewrite row_upto_S.
  set (P := fun s : Style =>
              s = reverse_style \/
              exists x, x < S k /\
                        s = cell_style dc cache (buffer scr y x)).
  change (Forall (fun sp => P (style sp))
                 (spans (line_text
                           (column_step dc scr y
                                        (row_upto dc scr y cache k) k)))).
  assert (IH' : Forall (fun sp => P (style sp))
                       (spans (line_text (row_upto dc scr y cache k)))).
  { eapply Forall_impl; [|exact IH]. cbv beta.
    intros sp [H | (x & Hx & H)]; [now left|].
    right. exists x. split; [lia | exact H]. }
  clear IH.
  assert (Hrev : P reverse_style) by now left.
  assert (Hlast : 0 < k ->
                  P (fst (char_rich_style
                            dc (colors_cache (row_upto dc scr y cache k))
                            (buffer scr y (k - 1))))).
  { intros Hk. right. exists (k - 1). split; [lia|].
    exact (cell_style_theme dc _ cache _ (row_cache dc scr y cache k)). }
  unfold column_step.
  destruct (0 <? k) eqn:Hk;
    [apply Nat.ltb_lt in Hk; specialize (Hlast Hk);
     destruct (negb _ || _);
     [destruct (char_rich_style _ _ _) as [sty c]; cbn [fst] in Hlast|]|];
    destruct (_ && _); cbn [line_text];
    repeat (apply stylize_styles; [assumption|]);
    exact IH'.
Qed.

(** C10. The style of a cell is built from three things only: the
    colour its foreground resolves to, the colour its background
    resolves to ([detect_color] of the name, and in the textual mode the
    colour of the theme in place of "default") and its bold flag; it is
    the empty style exactly when one of the two colours does not parse.
    Its italic, underline, strike, reverse and blink attributes are
    unset, and it is the same for two cells of the same foreground,
    background and bold flag, which the comparison still tells apart by
    the other five attributes. Every span of a rendered row is the
    overlay of the cursor or has the style of a cell of the row, so no
    run carries any of the five. *)
Theorem char_rich_style_keeps_colors_and_bold
        (dc : option string) (cache : option Colors)
        (d f b : string) (bo i u s r bl : bool)
        (scr : Screen) (y : nat) :
  let ch := mkChar d f b bo i u s r bl in
  let sty := fst (char_rich_style dc cache ch) in
  let fgc :=
    if is_textual dc && String.eqb (detect_color f) "default"
    then foreground (theme_of cache) else detect_color f in
  let bgc :=
    if is_textual dc && String.eqb (detect_color b) "default"
    then background (theme_of cache) else detect_color b in
  sty = (if color_parses fgc && color_parses bgc
         then mkStyle (Some fgc) (Some bgc) (Some bo)
                      None None None None None
         else Rich.null) /\
  (italic sty = None /\ underline sty = None /\ strike sty = None /\
   Rich.reverse sty = None /\ Rich.blink sty = None) /\
  (forall d' i' u' s' r' bl',
      fst (char_rich_style dc cache (mkChar d' f b bo i' u' s' r' bl')) = sty
      /\
      char_style_cmp ch (mkChar d' f b bo i' u' s' r' bl') =
      Bool.eqb i i' && Bool.eqb u u' && Bool.eqb s s' && Bool.eqb r r' &&
      Bool.eqb bl bl') /\
  Forall (fun sp =>
            style sp = reverse_style \/
            (exists x, x < columns scr /\
                       style sp =
                       fst (char_rich_style dc cache (buffer scr y x))) /\
            italic (style sp) = None /\ underline (style sp) = None /\
            strike (style sp) = None /\ Rich.reverse (style sp) = None /\
            Rich.blink (style sp) = None)
         (spans (line_text (render_row dc scr y cache))).
Proof.
  intros ch sty fgc bgc.
  assert (E : sty = if color_parses fgc && color_parses bgc
                    then mkStyle (Some fgc) (Some bgc) (Some bo)
                                 None None None None None
                    else Rich.null)
    by apply (char_rich_style_exact dc cache ch).
  split; [exact E|]. split; [|split].
  - rewrite E.
    destruct (color_parses fgc && color_parses bgc); simpl; auto.
  - intros d' i' u' s' r' bl'. split; [reflexivity|].
    unfold char_style_cmp, ch. simpl.
    now rewrite !String.eqb_refl, Bool.eqb_reflx.
  - unfold render_row. fold (row_upto dc scr y cache (columns scr)).
    eapply Forall_impl; [|apply row_span_styles]. cbv beta.
    intros sp [H | (x & Hx & H)]; [now left|]. right.
    split; [exists x; split; [exact Hx | exact H]|].
    rewrite H. unfold cell_style.
    destruct (char_rich_style_shape dc cache (buffer scr y x))
      as [-> | (fc & bc & ->)]; simpl; auto.
Qed.

(** *** The text of the snapshot *)

Lemma row_plain dc scr y cache k :
  plain (line_text (row_upto dc scr y cache k)) = row_chars scr y k.
Proof.
  induction k as [|k IH]; [reflexivity|].
  now rewrite row_upto_S, plain_column_step, IH.
Qed.

Lemma render_upto_plain dc scr cache n :
  map plain (fst (render_upto dc scr cache n)) =
  map (fun y => row_chars scr y (columns scr)) (seq 0 n).
Proof.
  induction n as [|n IH]; [reflexivity|].
  rewrite render_upto_S, seq_S, map_app. unfold render_step. simpl.
  rewrite map_app, IH. simpl. unfold render_row.
  fold (row_upto dc scr n (snd (render_upto dc scr cache n)) (columns scr)).
  now rewrite row_plain.
Qed.

(** X10. The text of the snapshot is the text of the grid: line [y]
    holds the characters of the cells of row [y] in the order of the
    columns, whatever the styles, the colours that fail to parse and the
    place of the cursor. *)
Theorem snapshot_text_is_grid_text
        (dc : option string) (cache : option Colors) (scr : Screen) :
  map plain (fst (render dc scr cache)) =
  map (fun y => row_chars scr y (columns scr)) (seq 0 (lines scr)).
Proof. apply render_upto_plain. Qed.

(** *** Styles that fail *)

Lemma stylize_null t a b : stylize t Rich.null a b = t.
Proof. reflexivity. Qed.

Lemma row_unstyled dc scr y cache0 cache k :
  theme_of cache = theme_of cache0 ->
  (forall x, x < columns scr ->
             cell_style dc cache0 (buffer scr y x) = Rich.null) ->
  k <= columns scr ->
  Forall (fun sp => style sp = reverse_style)
         (spans (line_text (row_upto dc scr y cache k))).
Proof.
  intros Hth Hnull. induction k as [|k IH]; intros Hk; [constructor|].
  specialize (IH ltac:(lia)).
  rewrite row_upto_S. unfold column_step.
  assert (Hsty : fst (char_rich_style dc
                        (colors_cache (row_upto dc scr y cache k))
                        (buffer scr y (k - 1))) = Rich.null).
  { fold (cell_style dc (colors_cache (row_upto dc scr y cache k))
                     (buffer scr y (k - 1))).
    rewrite (cell_style_theme dc _ cache0)
      by (now rewrite row_cache). apply Hnull. lia. }
  destruct (0 <? k);
    [destruct (negb _ || _);
     [destruct (char_rich_style _ _ _) as [sty c]; simpl in Hsty;
      subst sty; rewrite stylize_null|]|];
    destruct (_ && _); simpl;
    try (apply (reverse_only_in_overlay_stylize _ reverse_style);
         [now right|]); try exact IH.
  all: unfold stylize; simpl;
    destruct (_ || _); simpl; try exact IH;
    apply Forall_app; split; [exact IH | now repeat constructor].
Qed.

(** X11. A cell whose colours do not make a style is drawn unstyled and
    the row goes on: in a grid where no cell makes a style, the cursor
    overlay is the only span of the snapshot. *)
Theorem unstyled_cells_leave_the_overlay
        (dc : option string) (cache : option Colors) (scr : Screen) :
  (forall y x, y < lines scr -> x < columns scr ->
               fst (char_rich_style dc cache (buffer scr y x)) = Rich.null) ->
  Forall (fun line => Forall (fun sp => style sp = reverse_style)
                             (spans line))
         (fst (render dc scr cache)).
Proof.
  intros Hnull. apply Forall_forall. intros line Hin.
  destruct (In_nth _ _ Rich.empty Hin) as (y & Hy & <-).
  rewrite (proj1 (render_rows dc scr cache)) in Hy.
  destruct (render_rows_theme dc scr cache y Hy) as (c & Hc & ->).
  apply (row_unstyled dc scr y cache c); auto.
  intros x Hx. now apply Hnull.
Qed.

(** *** The style of every cell *)

Lemma column_step_halves dc scr y st x :
  column_step dc scr y st x = mark_cursor scr y (close_run dc scr y st x) x.
Proof. reflexivity. Qed.

Lemma style_at_stylize t sty a b p :
  truthy sty = true -> a < b -> b <= String.length (plain t) ->
  style_at (stylize t sty a b) p =
  if (a <=? p) && (p <? b) then combine (style_at t p) sty
  else style_at t p.
Proof.
  intros Ht Hab Hb. unfold stylize. rewrite Ht.
  destruct (String.length (plain t) <=? a) eqn:E1;
    [apply Nat.leb_le in E1; lia|].
  destruct (b <=? a) eqn:E2; [apply Nat.leb_le in E2; lia|].
  cbn [orb]. unfold style_at. cbn [spans].
  rewrite filter_app. cbn [filter]. unfold covers at 2. cbn [Rich.start Rich.stop].
  replace (Nat.min (String.length (plain t)) b) with b by lia.
  destruct ((a <=? p) && (p <? b)).
  - now rewrite map_app, fold_left_app.
  - now rewrite app_nil_r.
Qed.

Lemma cell_style_cases dc cache ch :
  cell_style dc cache ch = Rich.null \/ sets_colors (cell_style dc cache ch).
Proof.
  destruct (char_rich_style_shape dc cache ch) as [H | (f & g & H)];
    [now left | right].
  exists f, g, (Pyte.bold ch). exact H.
Qed.

Lemma truthy_sets_colors dc cache ch :
  truthy (cell_style dc cache ch) = true ->
  sets_colors (cell_style dc cache ch).
Proof.
  destruct (cell_style_cases dc cache ch) as [-> | H]; [discriminate|auto].
Qed.

Lemma run_style_cases dc cache scr y scp p :
  run_style dc cache scr y scp p = Rich.null \/
  sets_colors (run_style dc cache scr y scp p).
Proof.
  unfold run_style.
  destruct (p <? scp); [apply cell_style_cases|].
  destruct (_ && _); [apply cell_style_cases | now left].
Qed.

(** A run style laid over a cell replaces the colours and the bold flag
    and keeps the overlay. *)
Lemma with_cursor_combine scr y p b s :
  b = Rich.null \/ sets_colors b -> sets_colors s ->
  combine (with_cursor scr y p b) s = with_cursor scr y p s.
Proof.
  intros Hb (f & g & bo & ->). unfold with_cursor.
  destruct (_ && _);
    destruct Hb as [-> | (f' & g' & bo' & ->)]; reflexivity.
Qed.

Lemma mark_cursor_style scr y st x p :
  String.length (plain (line_text st)) = S x ->
  style_at (line_text (mark_cursor scr y st x)) p =
  if p =? x then with_cursor scr y x (style_at (line_text st) p)
  else style_at (line_text st) p.
Proof.
  intros Hlen. unfold mark_cursor, with_cursor.
  destruct (_ && _).
  - cbn [line_text]. rewrite style_at_stylize by (auto; lia).
    destruct (Nat.eqb_spec p x) as [-> | Hne].
    + rewrite Nat.leb_refl. cbn [andb].
      destruct (Nat.ltb_spec x (x + 1)); [reflexivity | lia].
    + destruct (Nat.leb_spec x p); destruct (Nat.ltb_spec p (x + 1));
        cbn [andb]; try reflexivity; lia.
  - now destruct (p =? x).
Qed.

Lemma mark_cursor_pos scr y st x :
  style_change_pos (mark_cursor scr y st x) = style_change_pos st.
Proof. unfold mark_cursor. now destruct (_ && _). Qed.

Lemma run_style_before dc cache scr y scp p :
  p < scp ->
  run_style dc cache scr y scp p = cell_style dc cache (buffer scr y p).
Proof.
  intros H. unfold run_style.
  destruct (Nat.ltb_spec p scp); [reflexivity | lia].
Qed.

Lemma run_style_at dc cache scr y scp :
  0 < scp ->
  run_style dc cache scr y scp scp =
  cell_style dc cache (buffer scr y (scp - 1)).
Proof.
  intros H. unfold run_style.
  destruct (Nat.ltb_spec scp scp); [lia|].
  destruct (Nat.ltb_spec 0 scp); [|lia].
  now rewrite Nat.eqb_refl.
Qed.

Lemma run_style_after dc cache scr y scp p :
  scp < p \/ scp = 0 -> run_style dc cache scr y scp p = Rich.null.
Proof.
  intros H. unfold run_style.
  destruct (Nat.ltb_spec p scp); [lia|].
  destruct (Nat.ltb_spec 0 scp); [|reflexivity].
  destruct (Nat.eqb_spec p scp); [lia | reflexivity].
Qed.

(** Comparisons of numbers that arithmetic settles. *)
Ltac settle_comparisons :=
  repeat match goal with
         | |- context [?a <? ?b] =>
             first [ replace (a <? b) with true
                       by (symmetry; apply Nat.ltb_lt; lia)
                   | replace (a <? b) with false
                       by (symmetry; apply Nat.ltb_ge; lia) ]
         | |- context [?a <=? ?b] =>
             first [ replace (a <=? b) with true
                       by (symmetry; apply Nat.leb_le; lia)
                   | replace (a <=? b) with false
                       by (symmetry; apply Nat.leb_gt; lia) ]
         | |- context [?a =? ?b] =>
             first [ replace (a =? b) with true
                       by (symmetry; apply Nat.eqb_eq; lia)
                   | replace (a =? b) with false
                       by (symmetry; apply Nat.eqb_neq; lia) ]
         end; cbn [andb orb].

(** What a row looks like after [x] columns, and after one more. *)
Lemma column_step_styles dc cache scr y st x :
  x < columns scr ->
  String.length (plain (line_text st)) = x ->
  cell_width (buffer scr y x) = 1 ->
  theme_of (colors_cache st) = theme_of cache ->
  (forall x', x' < columns scr ->
              truthy (cell_style dc cache (buffer scr y x')) = true) ->
  (0 < x -> style_change_pos st < x) ->
  (x = 0 -> style_change_pos st = 0) ->
  (forall p, style_change_pos st <= p -> p < x ->
             char_style_cmp (buffer scr y p)
                            (buffer scr y (style_change_pos st)) = true) ->
  (forall p, style_at (line_text st) p =
             if p <? x
             then with_cursor scr y p
                    (run_style dc cache scr y (style_change_pos st) p)
             else run_style dc cache scr y (style_change_pos st) p) ->
  style_change_pos (column_step dc scr y st x) < S x /\
  (forall p, style_change_pos (column_step dc scr y st x) <= p -> p < S x ->
             char_style_cmp
               (buffer scr y p)
               (buffer scr y (style_change_pos (column_step dc scr y st x)))
             = true) /\
  (forall p, style_at (line_text (column_step dc scr y st x)) p =
             if p <? S x
             then with_cursor scr y p
                    (run_style dc cache scr y
                       (style_change_pos (column_step dc scr y st x)) p)
             else run_style dc cache scr y
                    (style_change_pos (column_step dc scr y st x)) p) /\
  (0 < x -> x = columns scr - 1 ->
   style_change_pos (column_step dc scr y st x) = x).
Proof.
  intros Hx Hlen Hw Hth Hfull Hpos Hzero Hcmp Hsty.
  rewrite column_step_halves, mark_cursor_pos.
  set (text := Rich.append (line_text st) (data (buffer scr y x))).
  assert (Htext : String.length (plain text) = S x).
  { unfold text. simpl. rewrite string_length_app, Hlen.
    unfold cell_width in Hw. rewrite Hw. lia. }
  assert (Hclosed :
    (0 <? x) && (negb (char_style_cmp (buffer scr y x) (buffer scr y (x - 1)))
                 || (x =? columns scr - 1)) = true ->
    close_run dc scr y st x =
    mkRow (stylize text (cell_style dc cache (buffer scr y (x - 1)))
                   (style_change_pos st) (x + 1))
          x (snd (char_rich_style dc (colors_cache st)
                                  (buffer scr y (x - 1))))).
  { intros E. apply andb_true_iff in E as [E1 E2].
    unfold close_run. rewrite E1, E2. fold text.
    rewrite <- (cell_style_theme dc (colors_cache st) cache _ Hth).
    unfold cell_style. now destruct (char_rich_style _ _ _). }
  assert (Hopen :
    (0 <? x) && (negb (char_style_cmp (buffer scr y x) (buffer scr y (x - 1)))
                 || (x =? columns scr - 1)) = false ->
    close_run dc scr y st x =
    mkRow text (style_change_pos st) (colors_cache st)).
  { intros E. unfold close_run. fold text.
    destruct (0 <? x); [|reflexivity]. cbn [andb] in E. now rewrite E. }
  destruct ((0 <? x) &&
            (negb (char_style_cmp (buffer scr y x) (buffer scr y (x - 1)))
             || (x =? columns scr - 1))) eqn:Eclose.
  - (* the run is closed at [x] *)
    rewrite (Hclosed eq_refl). cbn [style_change_pos].
    apply andb_true_iff in Eclose as [Ex _]. apply Nat.ltb_lt in Ex.
    specialize (Hpos Ex).
    set (s1 := cell_style dc cache (buffer scr y (x - 1))) in *.
    assert (Hs1 : sets_colors s1)
      by (apply truthy_sets_colors, Hfull; lia).
    assert (Ht1 : truthy s1 = true) by (apply Hfull; lia).
    split; [lia|]. split; [|split; [|auto]].
    + intros p Hp1 Hp2. replace p with x by lia.
      apply char_style_cmp_refl.
    + intros p. rewrite mark_cursor_style
        by (cbn [line_text]; now rewrite plain_stylize).
      cbn [line_text].
      rewrite style_at_stylize by (auto; lia).
      change (style_at text p) with (style_at (line_text st) p).
      rewrite Hsty.
      destruct (Nat.lt_trichotomy p x) as [Hlt | [-> | Hgt]].
      * destruct (Nat.lt_ge_cases p (style_change_pos st)) as [Hout | Hin];
          settle_comparisons.
        -- now rewrite !run_style_before by lia.
        -- rewrite with_cursor_combine;
             [|apply run_style_cases | exact Hs1].
           rewrite run_style_before by lia.
           f_equal. unfold s1. apply char_style_cmp_style.
           apply (char_style_cmp_trans _
                    (buffer scr y (style_change_pos st))).
           ++ apply Hcmp; lia.
           ++ apply char_style_cmp_sym, Hcmp; lia.
      * settle_comparisons.
        rewrite run_style_after by lia. rewrite run_style_at by lia.
        fold s1. destruct Hs1 as (f & g & bo & ->). reflexivity.
      * settle_comparisons.
        now rewrite !run_style_after by lia.
  - (* the run stays open *)
    rewrite (Hopen eq_refl). cbn [style_change_pos].
    split; [destruct x; [rewrite Hzero by reflexivity|]; lia|].
    split; [|split].
    + intros p Hp1 Hp2.
      destruct (Nat.eq_dec p x) as [-> | Hne]; [|apply Hcmp; lia].
      destruct x as [|x'].
      * rewrite Hzero by reflexivity. apply char_style_cmp_refl.
      * cbn [Nat.ltb Nat.leb andb] in Eclose.
        apply orb_false_iff in Eclose as [Ec _].
        apply negb_false_iff in Ec.
        apply (char_style_cmp_trans _ (buffer scr y (S x' - 1))); [exact Ec|].
        apply Hcmp; lia.
    + intros p. rewrite mark_cursor_style by exact Htext.
      cbn [line_text].
      change (style_at text p) with (style_at (line_text st) p).
      rewrite Hsty.
      destruct (Nat.eqb_spec p x) as [-> | Hne].
      * destruct (Nat.ltb_spec x x); [lia|].
        destruct (Nat.ltb_spec x (S x)); [reflexivity | lia].
      * destruct (Nat.ltb_spec p x); destruct (Nat.ltb_spec p (S x));
          try reflexivity; lia.
    + intros H0 Hlast. exfalso.
      apply Nat.ltb_lt in H0. rewrite H0 in Eclose. cbn [andb] in Eclose.
      apply orb_false_iff in Eclose as [_ Ee].
      apply Nat.eqb_neq in Ee. contradiction.
Qed.

Lemma row_styles dc cache0 scr y cache k :
  theme_of cache = theme_of cache0 ->
  (forall x, x < columns scr -> cell_width (buffer scr y x) = 1) ->
  (forall x, x < columns scr ->
             truthy (cell_style dc cache0 (buffer scr y x)) = true) ->
  k <= columns scr ->
  (0 < k -> style_change_pos (row_upto dc scr y cache k) < k) /\
  (k = 0 -> style_change_pos (row_upto dc scr y cache k) = 0) /\
  (forall p, style_change_pos (row_upto dc scr y cache k) <= p -> p < k ->
             char_style_cmp
               (buffer scr y p)
               (buffer scr y (style_change_pos (row_upto dc scr y cache k)))
             = true) /\
  (forall p, style_at (line_text (row_upto dc scr y cache k)) p =
             if p <? k
             then with_cursor scr y p
                    (run_style dc cache0 scr y
                       (style_change_pos (row_upto dc scr y cache k)) p)
             else run_style dc cache0 scr y
                    (style_change_pos (row_upto dc scr y cache k)) p) /\
  (2 <= k -> k = columns scr ->
   style_change_pos (row_upto dc scr y cache k) = k - 1).
Proof.
  intros Hth Hw Hfull. induction k as [|k IH]; intros Hk.
  - repeat split; try lia; reflexivity.
  - destruct (IH ltac:(lia)) as (I1 & I2 & I3 & I4 & _).
    rewrite row_upto_S.
    assert (Hlen : String.length
                     (plain (line_text (row_upto dc scr y cache k))) = k)
      by (apply row_width; [exact Hw | lia]).
    assert (Hth' : theme_of (colors_cache (row_upto dc scr y cache k)) =
                   theme_of cache0) by now rewrite row_cache.
    destruct (column_step_styles dc cache0 scr y
                (row_upto dc scr y cache k) k
                ltac:(lia) Hlen (Hw k ltac:(lia)) Hth' Hfull I1 I2 I3 I4)
      as (J1 & J2 & J3 & J4).
    repeat split; auto; try lia.
Qed.

(** X12. In a grid of one-character cells whose colours all make a
    style, every cell but the last of its row is rendered in the style
    [char_rich_style] gives to that cell, reversed when the cursor is on
    it: the column that two runs share takes the style of the later
    run. *)
Theorem cells_are_rendered_in_their_style
        (dc : option string) (cache : option Colors) (scr : Screen)
        (y p : nat) :
  one_char_cells scr ->
  (forall y' x, y' < lines scr -> x < columns scr ->
     truthy (fst (char_rich_style dc cache (buffer scr y' x))) = true) ->
  y < lines scr -> S p < columns scr ->
  style_at (nth y (fst (render dc scr cache)) Rich.empty) p =
  with_cursor scr y p (fst (char_rich_style dc cache (buffer scr y p))).
Proof.
  intros Hcells Hfull Hy Hp.
  destruct (render_rows_theme dc scr cache y Hy) as (c & Hc & ->).
  destruct (row_styles dc cache scr y c (columns scr) Hc
              (fun x Hx => Hcells y x Hy Hx) (fun x Hx => Hfull y x Hy Hx)
              (Nat.le_refl _)) as (_ & _ & _ & Hs & Hl).
  rewrite Hs, Hl by lia. settle_comparisons.
  now rewrite run_style_before by lia.
Qed.

(** X13. In such a grid of two columns or more, the last cell of every
    row is rendered in the style of the cell before it, reversed when
    the cursor is on it. *)
Theorem last_cell_is_rendered_as_the_one_before
        (dc : option string) (cache : option Colors) (scr : Screen)
        (y : nat) :
  one_char_cells scr ->
  (forall y' x, y' < lines scr -> x < columns scr ->
     truthy (fst (char_rich_style dc cache (buffer scr y' x))) = true) ->
  y < lines scr -> 2 <= columns scr ->
  style_at (nth y (fst (render dc scr cache)) Rich.empty)
           (columns scr - 1) =
  with_cursor scr y (columns scr - 1)
    (fst (char_rich_style dc cache (buffer scr y (columns scr - 2)))).
Proof.
  intros Hcells Hfull Hy Hcols.
  destruct (render_rows_theme dc scr cache y Hy) as (c & Hc & ->).
  destruct (row_styles dc cache scr y c (columns scr) Hc
              (fun x Hx => Hcells y x Hy Hx) (fun x Hx => Hfull y x Hy Hx)
              (Nat.le_refl _)) as (_ & _ & _ & Hs & Hl).
  rewrite Hs, Hl by lia. settle_comparisons.
  rewrite run_style_at by lia.
  now replace (columns scr - 1 - 1) with (columns scr - 2) by lia.
Qed.

(** *** The events of the widget *)

Lemma recv_stdout_fields chars t :
  emulator_started (fst (recv (Stdout chars) t)) = emulator_started t /\
  mouse_tracking (fst (recv (Stdout chars) t)) =
  scan_modes chars (mouse_tracking t).
Proof.
  unfold recv. destruct (render _ _ _) as [display cache]. now split.
Qed.

Lemma scan_modes_set chars tracking :
  last_decset "1000h" chars -> scan_modes chars tracking = true.
Proof.
  intros (before & params & after & -> & Hpar & Hend & Hnh & Hnl).
  assert (Hpt : all_chars is_param_char (params ++ "1000") = true)
    by now rewrite all_chars_app, Hpar.
  apply (scan_modes_last "1000" "h"%char true); auto.
  intros t.
  destruct (parameters_of_decset "1000" "h"%char params
              eq_refl Hpt eq_refl Hend) as (Hs & Hin & Hout).
  unfold scan_sequence. rewrite Hs.
  cbn [String.append] in Hin. rewrite Hin.
  specialize (Hout "1000" "l"%char eq_refl).
  cbn [String.append] in Hout. rewrite Hout; [reflexivity | discriminate].
Qed.

Lemma scan_modes_cleared chars tracking :
  last_decset "1000l" chars -> scan_modes chars tracking = false.
Proof.
  intros (before & params & after & -> & Hpar & Hend & Hnh & Hnl).
  assert (Hpt : all_chars is_param_char (params ++ "1000") = true)
    by now rewrite all_chars_app, Hpar.
  apply (scan_modes_last "1000" "l"%char false); auto.
  intros t.
  destruct (parameters_of_decset "1000" "l"%char params
              eq_refl Hpt eq_refl Hend) as (Hs & Hin & _).
  unfold scan_sequence. rewrite Hs.
  cbn [String.append] in Hin. now rewrite Hin.
Qed.

(** X14. The mouse handlers follow the mode the output asked for: after
    a chunk whose last mode sequence ends in [1000h] a click and a scroll
    are put on the queue as they are, after one that ends in [1000l]
    they are dropped, and a chunk without such a sequence leaves the
    handlers as they were. *)
Theorem mouse_events_follow_the_mode
        (t : Terminal) (chars direction : string) (x y button : Z) :
  emulator_started t = true ->
  (last_decset "1000h" chars ->
   on_click x y button (fst (recv (Stdout chars) t)) = [Click x y button] /\
   on_mouse_scroll direction x y (fst (recv (Stdout chars) t)) =
   [Scroll direction x y]) /\
  (last_decset "1000l" chars ->
   on_click x y button (fst (recv (Stdout chars) t)) = [] /\
   on_mouse_scroll direction x y (fst (recv (Stdout chars) t)) = []) /\
  (~ decset_occurs "1000h" chars -> ~ decset_occurs "1000l" chars ->
   on_click x y button (fst (recv (Stdout chars) t)) =
   on_click x y button t /\
   on_mouse_scroll direction x y (fst (recv (Stdout chars) t)) =
   on_mouse_scroll direction x y t).
Proof.
  intros Hst.
  destruct (recv_stdout_fields chars t) as [Hs Hm].
  unfold on_click, on_mouse_scroll. rewrite Hs, Hm, Hst. cbn [andb].
  split; [|split].
  - intros H. now rewrite (scan_modes_set _ _ H).
  - intros H. now rewrite (scan_modes_cleared _ _ H).
  - intros Hh Hl. now rewrite (scan_modes_unchanged _ _ Hh Hl).
Qed.

(** X15. Once the widget has taken [Disconnect] from the queue it shows
    one empty line, its emulator is gone, and its resize, click, scroll
    and key handlers put nothing on the queue and leave it as it is; a
    second [Disconnect] changes nothing. *)
Theorem widget_is_inert_after_disconnect
        (t : Terminal) (on_escape : bool) (event : KeyEvent)
        (width height : nat) (direction : string) (x y button : Z) :
  snd (recv Disconnect t) = [] /\
  emulator_started (fst (recv Disconnect t)) = false /\
  _display (fst (recv Disconnect t)) =
  (if emulator_started t then initial_display else _display t) /\
  on_resize width height (fst (recv Disconnect t)) =
  (fst (recv Disconnect t), []) /\
  on_click x y button (fst (recv Disconnect t)) = [] /\
  on_mouse_scroll direction x y (fst (recv Disconnect t)) = [] /\
  key_messages (on_key on_escape event (fst (recv Disconnect t))) = [] /\
  recv Disconnect (fst (recv Disconnect t)) = (fst (recv Disconnect t), []).
Proof.
  unfold recv, stop_terminal, on_resize, on_click, on_mouse_scroll, on_key.
  cbn [fst snd].
  destruct (emulator_started t) eqn:E; cbn; rewrite ?E; cbn;
    repeat split; reflexivity.
Qed.

Lemma dict_get_In k v d : dict_get k d = Some v -> In (k, v) d.
Proof.
  induction d as [|[k' v'] d IH]; simpl; [discriminate|].
  destruct (String.eqb k k') eqn:E.
  - apply String.eqb_eq in E. subst k'. intros H. injection H as ->.
    now left.
  - intros H. right. now apply IH.
Qed.

(** X16. A key of [ctrl_keys] is sent to the child as the sequence of
    the table, which starts with [ESC], whatever character the event
    carries and whether or not the escape hook is set; the event is
    stopped and the focus is kept. *)
Theorem mapped_key_sends_its_sequence
        (on_escape : bool) (event : KeyEvent) (t : Terminal)
        (sequence : string) :
  emulator_started t = true ->
  dict_get (key event) ctrl_keys = Some sequence ->
  on_key on_escape event t = mkKeyOutcome true false false [Stdin sequence]
  /\ startswith sequence (String ESC EmptyString) = true.
Proof.
  intros Hst Hget. unfold on_key. rewrite Hst. cbn [negb].
  unfold or_else. rewrite Hget.
  apply dict_get_In in Hget.
  destruct event as [k ch]. cbn [key character] in *.
  unfold ctrl_keys in Hget. cbn [In] in Hget.
  repeat (destruct Hget as [Hget | Hget];
          [injection Hget as <- <-; split; reflexivity|]).
  contradiction.
Qed.

(** X17. [stop] leaves the queues of the widget set: after a start and a
    stop the widget holds no emulator, yet [send_input] still puts its
    text on the queue, where no task of the stopped emulator takes it. *)
Theorem send_input_outlives_stop (text : string) (w : Widget) :
  emulator_started (terminal w) = false ->
  send_input text (stop_widget (start_widget w)) = [Stdin text] /\
  emulator_started (terminal (stop_widget (start_widget w))) = false /\
  _display (terminal (stop_widget (start_widget w))) = initial_display.
Proof.
  intros E. unfold send_input, stop_widget, start_widget, stop_terminal.
  rewrite E. cbn. auto.
Qed.

(** *** Filling the colour cache *)

Lemma char_rich_style_fills dc cache ch :
  is_textual dc = true ->
  snd (char_rich_style dc cache ch) = Some (theme_of cache).
Proof.
  intros H. unfold char_rich_style, theme_of. rewrite H.
  destruct cache; simpl; now destruct (make_style _ _ _).
Qed.

Lemma last_column_fills dc scr y st x :
  is_textual dc = true -> 0 < x -> x = columns scr - 1 ->
  colors_cache (column_step dc scr y st x) =
  Some (theme_of (colors_cache st)).
Proof.
  intros Ht H0 Hlast. unfold column_step.
  apply Nat.ltb_lt in H0. rewrite H0.
  apply Nat.eqb_eq in Hlast. rewrite Hlast, orb_true_r.
  pose proof (char_rich_style_fills dc (colors_cache st)
                (buffer scr y (x - 1)) Ht) as Hf.
  destruct (char_rich_style _ _ _) as [sty c]. simpl in Hf.
  now destruct (_ && _).
Qed.

Lemma render_fills dc scr cache :
  is_textual dc = true -> 1 <= lines scr -> 2 <= columns scr ->
  snd (render dc scr cache) = Some (theme_of cache).
Proof.
  intros Ht Hl Hc. unfold render.
  fold (render_upto dc scr cache (lines scr)).
  destruct (lines scr) as [|n]; [lia|].
  rewrite render_upto_S. unfold render_step, render_row. cbn [snd].
  fold (row_upto dc scr n (snd (render_upto dc scr cache n)) (columns scr)).
  destruct (columns scr) as [|k] eqn:Ek; [lia|].
  rewrite row_upto_S, last_column_fills; auto; try lia.
  now rewrite row_cache, render_upto_cache.
Qed.

End Widget.

(** ** Properties of the emulator *)

Lemma encode_ascii s : all_chars is_ascii s = true -> encode s = s.
Proof.
  induction s as [|c s IH]; simpl; [reflexivity|].
  intros H. apply andb_true_iff in H as [Hc Hs].
  unfold encode_char. unfold is_ascii in Hc. rewrite Hc. simpl.
  now rewrite IH.
Qed.

Lemma string_of_uint_ascii d :
  all_chars is_ascii (NilEmpty.string_of_uint d) = true.
Proof. induction d; simpl; auto. Qed.

Lemma format_int_ascii n : all_chars is_ascii (format_int n) = true.
Proof.
  unfold format_int. destruct (Z.to_int n); simpl;
    apply string_of_uint_ascii.
Qed.

Lemma sgr_mouse_ascii b x y f :
  all_chars is_ascii b = true -> all_chars is_ascii f = true ->
  all_chars is_ascii (sgr_mouse b x y f) = true.
Proof.
  intros Hb Hf. unfold sgr_mouse.
  repeat rewrite all_chars_app.
  rewrite Hb, Hf, !format_int_ascii. reflexivity.
Qed.

Lemma fd_write_full payload p :
  accepts 1 (script p) = true ->
  fd_write payload p =
  (mkPty (delivered p ++ payload) (window p) (tl (script p)),
   inl (String.length payload)).
Proof.
  unfold fd_write. destruct (script p) as [|[|n|] rest]; simpl;
    intros H; try discriminate; reflexivity.
Qed.


Lemma code_ascii_of_nat n : n < 256 -> code (ascii_of_nat n) = n.
Proof. intros H. unfold code. now apply nat_ascii_embedding. Qed.

Lemma unpack_H v a b :
  pack_H v = Some (String a (String b EmptyString)) ->
  Z.of_nat (code a + 256 * code b) = v.
Proof.
  unfold pack_H. destruct ((0 <=? v) && (v <=? 65535))%Z eqn:E;
    [|discriminate].
  apply andb_true_iff in E as [Hlo Hhi].
  apply Z.leb_le in Hlo. apply Z.leb_le in Hhi.
  intros H. injection H as <- <-.
  assert (0 <= v mod 256 < 256)%Z by (apply Z.mod_pos_bound; lia).
  assert (0 <= v / 256 < 256)%Z
    by (split; [apply Z.div_pos; lia | apply Z.div_lt_upper_bound; lia]).
  rewrite !code_ascii_of_nat by lia.
  rewrite Nat2Z.inj_add, Nat2Z.inj_mul, !Z2Nat.id by lia.
  pose proof (Z.div_mod v 256). lia.
Qed.

Lemma pack_H_shape v :
  pack_H v =
  if in_u16 v
  then Some (String (ascii_of_nat (Z.to_nat (v mod 256)))
                    (String (ascii_of_nat (Z.to_nat (v / 256))) EmptyString))
  else None.
Proof. reflexivity. Qed.

(** C7, as the code has it. The window-size ioctl is issued with the
    rows and columns of the message as they are, zero included, when both
    fit an unsigned 16-bit integer; any other message, a negative
    dimension included, fails in [struct.pack], no ioctl is issued, and
    the error ends the [_run] task. *)
Theorem set_size_is_not_clamped (rows cols : Z) (e : Emulator) :
  dispatch (SetSize rows cols) (pty e) =
  (if in_u16 rows && in_u16 cols
   then (mkPty (delivered (pty e)) (Some (rows, cols)) (script (pty e)), None)
   else (pty e, Some StructError)) /\
  run_task (run_turn (SetSize rows cols) e) =
  (if in_u16 rows && in_u16 cols then Waiting else Finished).
Proof.
  assert (D : dispatch (SetSize rows cols) (pty e) =
    if in_u16 rows && in_u16 cols
    then (mkPty (delivered (pty e)) (Some (rows, cols)) (script (pty e)),
          None)
    else (pty e, Some StructError)).
  { unfold dispatch, pack_HH.
    destruct (pack_H rows) as [pr|] eqn:Er.
    - destruct (pack_H cols) as [pc|] eqn:Ec.
      + pose proof Er as Er'. pose proof Ec as Ec'.
        rewrite pack_H_shape in Er', Ec'.
        destruct (in_u16 rows); [|discriminate].
        destruct (in_u16 cols); [|discriminate].
        injection Er' as <-. injection Ec' as <-.
        cbn [String.append ioctl_TIOCSWINSZ andb].
        now rewrite (unpack_H _ _ _ Er), (unpack_H _ _ _ Ec).
      + rewrite pack_H_shape in Er, Ec.
        destruct (in_u16 rows); [|discriminate].
        destruct (in_u16 cols); [discriminate|]. reflexivity.
    - rewrite pack_H_shape in Er.
      destruct (in_u16 rows); [discriminate|]. reflexivity. }
  split; [exact D|].
  unfold run_turn. rewrite D.
  destruct (in_u16 rows && in_u16 cols); reflexivity.
Qed.

(** C7, as stated, fails: a message with zero rows and columns sets a
    window of zero by zero. *)
Lemma set_size_zero_reaches_ioctl : ~ resize_clamps 0 0 pty0.
Proof.
  unfold resize_clamps. simpl. intros [_ [H | (r & c & H & Hr & Hc)]].
  - discriminate.
  - injection H as <- <-. lia.
Qed.

(** C8, as the code has it. A stdin message is handed to the descriptor
    in one [write(2)] and its count is dropped: the payload arrives
    whole when the call takes it whole, only the bytes the call took
    arrive when it is short, with the loop going on to the next message,
    and nothing arrives when the call fails. *)
Theorem stdin_is_written_once (text : string) (p : Pty) :
  script (fst (dispatch (Stdin text) p)) = tl (script p) /\
  window (fst (dispatch (Stdin text) p)) = window p /\
  match hd Full (script p) with
  | Full =>
      delivered (fst (dispatch (Stdin text) p)) = delivered p ++ encode text
      /\ snd (dispatch (Stdin text) p) = None
  | Short n =>
      delivered (fst (dispatch (Stdin text) p)) =
      delivered p ++ take n (encode text)
      /\ snd (dispatch (Stdin text) p) = None
  | Broken =>
      delivered (fst (dispatch (Stdin text) p)) = delivered p
      /\ snd (dispatch (Stdin text) p) = Some OSError
  end.
Proof.
  unfold dispatch, write_all, fd_write.
  destruct (script p) as [|[|n|] rest]; simpl; auto.
Qed.

(** C8, as stated, fails: of the three bytes of the payload one reaches a
    descriptor that takes one byte at the first call, and the descriptor
    is not unusable. *)
Lemma short_write_is_not_retried : ~ stdin_delivered "abc" pty_short.
Proof.
  unfold stdin_delivered. simpl. intros [H | H]; discriminate.
Qed.

Lemma consistent_start p : Consistent (start p).
Proof.
  constructor; simpl; intros; try discriminate.
  - repeat split; auto. discriminate.
  - contradiction.
Qed.

Lemma consistent_step e ev : Consistent e -> Consistent (step e ev).
Proof.
  intros [Hp Hs Hd Hr].
  destruct e as [d evt rd rt st q pt]; simpl in *.
  destruct ev as [|r|msg| |]; simpl.
  - (* RunStart *)
    destruct rt; try (constructor; assumption).
    destruct (Hp eq_refl) as (-> & -> & -> & Hst).
    constructor; simpl; intros; try discriminate; auto.
    destruct H as [H | []]. discriminate.
  - (* Readable *)
    destruct rd; [|constructor; assumption].
    destruct r; simpl; constructor; simpl; intros; auto;
      try discriminate;
      try (destruct (Hp H) as (? & _); discriminate).
  - (* Inbound *)
    destruct rt; try (constructor; assumption).
    unfold run_turn; simpl. destruct (dispatch msg pt) as [pt' [x|]];
      constructor; simpl; intros; auto; discriminate.
  - (* RelayWake *)
    destruct st; try (constructor; assumption); destruct evt;
      constructor; simpl; intros; auto; try discriminate;
      try (destruct (Hp H) as (? & ? & ? & ?); discriminate);
      try (destruct (Hp H) as (? & ? & ? & ?); repeat split; auto;
           discriminate);
      try (apply in_app_or in H as [H | [H | []]]; auto;
           destruct d; [discriminate | auto]).
  - (* Stop *)
    constructor; simpl; intros; auto; discriminate.
Qed.

Lemma consistent_run evs e : Consistent e -> Consistent (run evs e).
Proof.
  revert e. induction evs as [|ev evs IH]; simpl; intros e H; [exact H|].
  apply IH, consistent_step, H.
Qed.

Lemma armed_step q e ev : quiet ev = true -> Armed q e -> Armed q (step e ev).
Proof.
  unfold Armed. intros Hq (Hd & He & Hr & Hs & Hp & Hsq).
  destruct ev as [|r|msg| |]; try discriminate; simpl.
  - destruct (run_task e) eqn:Erun; try congruence; repeat split; auto;
      congruence.
  - rewrite Hr. repeat split; auto; congruence.
  - destruct (run_task e) eqn:Erun; try congruence;
      try (repeat split; auto; congruence).
    unfold run_turn. destruct (dispatch msg (pty e)) as [p' [x|]];
      repeat split; simpl; auto; discriminate.
Qed.

Lemma armed_run q mid e :
  forallb quiet mid = true -> Armed q e -> Armed q (run mid e).
Proof.
  revert e. induction mid as [|ev mid IH]; simpl; intros e Hq H; [exact H|].
  apply andb_true_iff in Hq as [Hev Hmid].
  apply IH; [exact Hmid|]. now apply armed_step.
Qed.

Lemma silent_step e ev :
  Silent e -> Silent (step e ev) /\ send_queue (step e ev) = send_queue e.
Proof.
  unfold Silent. intros (Hr & He & Hp).
  destruct ev as [|r|msg| |]; simpl.
  - destruct (run_task e) eqn:Erun; try congruence; repeat split; auto;
      congruence.
  - rewrite Hr. repeat split; auto; congruence.
  - destruct (run_task e) eqn:Erun; try congruence;
      try (repeat split; auto; congruence).
    unfold run_turn. destruct (dispatch msg (pty e)) as [p' [x|]];
      repeat split; simpl; auto; discriminate.
  - rewrite He. destruct (send_task e); repeat split; auto.
  - repeat split; simpl; auto. discriminate.
Qed.

Lemma silent_run evs e :
  Silent e -> send_queue (run evs e) = send_queue e.
Proof.
  revert e. induction evs as [|ev evs IH]; simpl; intros e H; [reflexivity|].
  destruct (silent_step e ev H) as [H' Hq].
  now rewrite IH, Hq.
Qed.

Lemma run_app evs1 evs2 e : run (evs1 ++ evs2) e = run evs2 (run evs1 e).
Proof. unfold run. apply fold_left_app. Qed.

(** X21. Take the emulator after any steps, its reader still registered.
    When the next read of the descriptor raises, the turn of [_send_data]
    that follows puts one [Disconnect] on the queue, the first that was
    ever put there, whatever [_run] does in between; after it no step of
    the loop puts anything on the queue. *)
Theorem disconnect_is_emitted_once_and_last
        (p : Pty) (evs mid later : list Event) :
  reader (run evs (start p)) = true ->
  forallb quiet mid = true ->
  ~ In Disconnect (send_queue (run evs (start p))) /\
  send_queue (run (Readable ReadFailed :: mid ++ [RelayWake])
                  (run evs (start p))) =
  (send_queue (run evs (start p)) ++ [Disconnect])%list /\
  send_queue (run later
                  (run (Readable ReadFailed :: mid ++ [RelayWake])
                       (run evs (start p)))) =
  send_queue (run (Readable ReadFailed :: mid ++ [RelayWake])
                  (run evs (start p))).
Proof.
  intros Hrd Hmid.
  set (e1 := run evs (start p)) in *.
  assert (C : Consistent e1) by apply consistent_run, consistent_start.
  destruct C as [Hp Hs Hd Hr].
  assert (A : Armed (send_queue e1)
                    (run mid (step e1 (Readable ReadFailed)))).
  { apply armed_run; [exact Hmid|].
    simpl. rewrite Hrd. repeat split; simpl; auto.
    intros Hpend. destruct (Hp Hpend) as (? & _). congruence. }
  change (run (Readable ReadFailed :: mid ++ [RelayWake]) e1)
    with (run (mid ++ [RelayWake]) (step e1 (Readable ReadFailed))).
  rewrite run_app.
  set (e2 := run mid (step e1 (Readable ReadFailed))) in *.
  destruct A as (Ad & Ae & Ar & As & Ap & Aq).
  assert (E : run [RelayWake] e2 = send_data_turn e2).
  { simpl. rewrite Ae. destruct (send_task e2); congruence. }
  rewrite E.
  split; [intros Hin; specialize (Hd Hin); congruence|].
  split.
  - simpl. now rewrite Ad, Aq.
  - apply silent_run. repeat split; simpl; auto.
Qed.

(** ** The properties on sample inputs *)

(** C1. A row of three cells, the third of another colour, is rendered as
    one run over all three columns in the style of the first two: the
    third cell, whose own style is the blue one, lies under a run of the
    red style and is rendered red. In a row whose colour changes after
    the first cell, the two runs share the second column. *)
Theorem run_covers_a_cell_of_another_style :
  fst (render every_color dark_app None row_red_red_blue None) =
  [mkText "abc" [mkSpan 0 3 red_style]] /\
  fst (char_rich_style every_color dark_app None None
                       (buffer row_red_red_blue 0 2)) = blue_style /\
  style_at (nth 0 (fst (render every_color dark_app None
                               row_red_red_blue None)) Rich.empty) 2 =
  red_style /\
  fst (render every_color dark_app None row_red_blue_blue None) =
  [mkText "abc" [mkSpan 0 2 red_style; mkSpan 1 3 blue_style]].
Proof. repeat split; reflexivity. Qed.

(** C3, as stated, fails: after the resize to 40 rows and 10 columns the
    snapshot does not have 10 lines of 40 columns. *)
Lemma set_size_snapshot_is_not_10_by_40 :
  ~ snapshot_is 10 40
      (_display
         (fst (recv every_color idle_feed dark_app (Stdout EmptyString)
                    (fst (on_resize keep_cells 10 40 started_terminal))))).
Proof.
  unfold snapshot_is. intros [Hlen _]. vm_compute in Hlen. discriminate.
Qed.

Lemma set_size_rows_are_lines_witness :
  emulator_started started_terminal = true /\
  snd (on_resize keep_cells 10 40 started_terminal) = [SetSize 40 10] /\
  snapshot_is 40 10
      (_display
         (fst (recv every_color idle_feed dark_app (Stdout EmptyString)
                    (fst (on_resize keep_cells 10 40 started_terminal))))).
Proof.
  split; [reflexivity|].
  apply (set_size_rows_are_lines every_color idle_feed keep_cells dark_app
           started_terminal EmptyString);
    try reflexivity.
  intros y x _ _. reflexivity.
Defined.

(** C4, as stated, fails: in a blank row with the cursor on its first
    cell the run over the row is applied after the overlay. *)
Lemma overlay_precedes_the_run :
  overlay_is_last 0
    (spans (nth 0 (fst (render every_color dark_app None blank_row None))
                Rich.empty)) <> true.
Proof. vm_compute. discriminate. Qed.

Lemma cursor_overlay_on_one_cell_witness :
  overlays (nth 0 (fst (render every_color dark_app None blank_row None))
                Rich.empty) = [mkSpan 0 1 reverse_style] /\
  Rich.reverse
    (style_at (nth 0 (fst (render every_color dark_app None blank_row None))
                   Rich.empty) 0) = Some true.
Proof.
  destruct (cursor_overlay_on_one_cell every_color dark_app None None
              blank_row) as (Hov & _ & Hrev).
  - intros y x _ _. reflexivity.
  - simpl. lia.
  - simpl. lia.
  - split; [exact (Hov 0 (Nat.lt_0_1)) | exact Hrev].
Defined.

Lemma mouse_tracking_follows_decset_witness :
  scan_modes (String ESC "[?1;1000h") false = true /\
  scan_modes (String ESC "[?1000l") true = false /\
  scan_modes EmptyString true = true.
Proof.
  split; [|split].
  - apply (proj1 (proj2 (proj2 (proj2
             (mouse_tracking_follows_decset _ false))))).
    exists EmptyString, "1;", EmptyString.
    split; [reflexivity|]. split; [reflexivity|].
    split; [right; now exists "1"|].
    split; apply no_decset_in_empty.
  - apply (proj1 (proj2 (proj2 (proj2 (proj2
             (mouse_tracking_follows_decset _ true)))))).
    exists EmptyString, EmptyString, EmptyString.
    split; [reflexivity|]. split; [reflexivity|].
    split; [now left|].
    split; apply no_decset_in_empty.
  - apply (proj1 (mouse_tracking_follows_decset EmptyString true));
      apply no_decset_in_empty.
Defined.


Lemma disconnect_is_emitted_once_and_last_witness :
  send_queue
    (run [Readable (Decoded "late"); RelayWake; RunStart]
         (run (Readable ReadFailed :: [Inbound (Stdin "x")] ++ [RelayWake])
              (run [RunStart; Readable (Decoded "hi"); RelayWake]
                   (start pty0)))) =
  [Setup; Stdout "hi"; Disconnect].
Proof.
  destruct (disconnect_is_emitted_once_and_last pty0
              [RunStart; Readable (Decoded "hi"); RelayWake]
              [Inbound (Stdin "x")]
              [Readable (Decoded "late"); RelayWake; RunStart]
              eq_refl eq_refl) as (_ & Hone & Hlast).
  rewrite Hlast, Hone. reflexivity.
Defined.

(** ** More on the emulator *)

Lemma dispatch_set_size rows cols p :
  in_u16 rows && in_u16 cols = true ->
  dispatch (SetSize rows cols) p =
  (mkPty (delivered p) (Some (rows, cols)) (script p), None).
Proof.
  intros H. apply andb_true_iff in H as [Hr Hc].
  unfold dispatch, pack_HH. rewrite !pack_H_shape, Hr, Hc.
  cbn [String.append ioctl_TIOCSWINSZ].
  rewrite (unpack_H rows), (unpack_H cols);
    [reflexivity | | ]; now rewrite pack_H_shape, ?Hr, ?Hc.
Qed.

(** X1. A scroll message writes one SGR press report at the 1-indexed
    position, with code 64 for [up] and 65 for [down], and no release; any
    other direction writes nothing. *)
Theorem scroll_writes_one_press (direction : string) (x y : Z) (p : Pty) :
  accepts 1 (script p) = true ->
  dispatch (Scroll direction x y) p =
  if String.eqb direction "up"
  then (mkPty (delivered p ++ sgr_mouse "64" (x + 1) (y + 1) "M")
              (window p) (tl (script p)), None)
  else if String.eqb direction "down"
  then (mkPty (delivered p ++ sgr_mouse "65" (x + 1) (y + 1) "M")
              (window p) (tl (script p)), None)
  else (p, None).
Proof.
  intros Hacc. unfold dispatch.
  destruct (String.eqb direction "up") eqn:Eup.
  - assert (Ed : String.eqb direction "down" = false)
      by (apply String.eqb_eq in Eup; now subst).
    rewrite Ed. cbn [List.app write_all].
    rewrite encode_ascii by (apply sgr_mouse_ascii; reflexivity).
    now rewrite fd_write_full.
  - destruct (String.eqb direction "down"); cbn [List.app write_all];
      [|reflexivity].
    rewrite encode_ascii by (apply sgr_mouse_ascii; reflexivity).
    now rewrite fd_write_full.
Qed.

Lemma run_turn_stdin text e :
  script (pty e) = [] ->
  run_turn (Stdin text) e =
  mkEmulator (data_or_disconnect e) (event e) (reader e) Waiting
             (send_task e) (send_queue e)
             (mkPty (delivered (pty e) ++ encode text) (window (pty e)) []).
Proof.
  intros Hs. unfold run_turn, dispatch, write_all, fd_write.
  now rewrite Hs.
Qed.

(** X2. On a descriptor that takes every write, a sequence of stdin
    messages reaches the child as the encoded texts joined in the order
    of the messages, and [_run] goes on waiting. *)
Theorem stdin_stream_in_order (texts : list string) (e : Emulator) :
  run_task e = Waiting -> script (pty e) = [] ->
  delivered (pty (run (map (fun text => Inbound (Stdin text)) texts) e)) =
  delivered (pty e) ++ join (map encode texts) /\
  run_task (run (map (fun text => Inbound (Stdin text)) texts) e) = Waiting.
Proof.
  revert e. induction texts as [|text texts IH]; intros e Hrun Hs.
  - simpl. now rewrite append_empty_r.
  - cbn [map run fold_left step]. rewrite Hrun.
    fold (run (map (fun text => Inbound (Stdin text)) texts)
              (run_turn (Stdin text) e)).
    rewrite (run_turn_stdin _ _ Hs).
    destruct (IH (mkEmulator (data_or_disconnect e) (event e) (reader e)
                             Waiting (send_task e) (send_queue e)
                             (mkPty (delivered (pty e) ++ encode text)
                                    (window (pty e)) [])))
      as [IHd IHr]; [reflexivity | reflexivity |].
    split; [|exact IHr].
    rewrite IHd. cbn [pty delivered join]. now rewrite append_assoc.
Qed.

(** X4. The slot between [on_output] and [_send_data] holds one chunk:
    of the chunks read before [_send_data] is scheduled, the last one
    alone is put on the queue. *)
Theorem relay_forwards_the_last_chunk
        (chunks : list string) (last_chunk : string) (e : Emulator) :
  reader e = true -> send_task e <> Finished ->
  send_queue
    (run (map (fun text => Readable (Decoded text)) (chunks ++ [last_chunk])
          ++ [RelayWake]) e) =
  (send_queue e ++ [Stdout last_chunk])%list.
Proof.
  intros Hrd Hst. rewrite run_app.
  assert (H : forall l e0,
             reader e0 = true ->
             run (map (fun text => Readable (Decoded text))
                      (l ++ [last_chunk])) e0 =
             mkEmulator (Some last_chunk) true true (run_task e0)
                        (send_task e0) (send_queue e0) (pty e0)).
  { induction l as [|c l IH]; intros e0 H0.
    - simpl. now rewrite H0.
    - cbn [List.app map run fold_left step]. rewrite H0.
      fold (run (map (fun text => Readable (Decoded text))
                     (l ++ [last_chunk])) (on_output (Decoded c) e0)).
      now rewrite IH. }
  rewrite (H chunks e Hrd). simpl.
  destruct (send_task e); try congruence; reflexivity.
Qed.


Lemma setup_first_step e ev : setup_first e -> setup_first (step e ev).
Proof.
  unfold setup_first. intros H.
  destruct ev as [|r|msg| |]; simpl.
  - case_eq (run_task e); intros E; try exact H.
    right. simpl. split; [discriminate|].
    destruct H as [(Hq & _) | [Hrun _]]; [|congruence].
    rewrite Hq. exists []. auto.
  - case_eq (reader e); intros Erd; [|exact H].
    destruct H as [(_ & Hr & _) | H]; [congruence|].
    destruct r; simpl; auto.
  - case_eq (run_task e); intros E; try exact H.
    unfold run_turn. destruct (dispatch msg (pty e)) as [q [x|]]; simpl;
      (destruct H as [H | [_ H]]; [left; exact H | right]);
      (split; [discriminate | exact H]).
  - case_eq (send_task e); intros Est; try exact H;
      (case_eq (event e); intros Eev; simpl; [|exact H]);
      (destruct H as [(_ & _ & He) | [Hrun (rest & Hq & Hno)]];
       [congruence|]);
      right; (split; [exact Hrun|]);
      exists (rest ++ [match data_or_disconnect e with
                       | Some text => Stdout text
                       | None => Disconnect
                       end])%list;
      (split; [now rewrite Hq|]);
      intros Hin; apply in_app_or in Hin as [Hin | [Hin | []]];
      try contradiction; destruct (data_or_disconnect e); discriminate.
  - destruct H as [(Hq & _ & He) | [_ H]].
    + left. auto.
    + right. split; [discriminate | exact H].
Qed.

(** X5. Whatever the schedule, the queue of the emulator is empty or
    starts with [Setup], and holds no second [Setup]: nothing is sent to
    the widget before [Setup], and [Setup] is sent once. *)
Theorem setup_is_first_and_once (p : Pty) (evs : list Event) :
  send_queue (run evs (start p)) = [] \/
  exists rest, send_queue (run evs (start p)) = Setup :: rest /\
               ~ In Setup rest.
Proof.
  assert (H : forall l e, setup_first e -> setup_first (run l e)).
  { induction l as [|ev l IH]; intros e He; [exact He|].
    simpl. apply IH, setup_first_step, He. }
  destruct (H evs (start p)) as [(Hq & _) | [_ Hq]]; auto.
  left. auto.
Qed.

(** X6. [stop] is final: after it no step of the loop changes the
    emulator, so nothing more is queued and nothing more is written to
    the PTY, whatever messages still wait. *)
Theorem stop_is_final (e : Emulator) (evs : list Event) :
  run evs (stop e) = stop e.
Proof.
  induction evs as [|ev evs IH]; [reflexivity|].
  simpl. destruct ev; simpl; exact IH.
Qed.

Lemma finished_run_keeps_pty e ev :
  run_task e = Finished ->
  run_task (step e ev) = Finished /\ pty (step e ev) = pty e.
Proof.
  intros H. destruct ev as [|r|msg| |]; simpl; rewrite ?H; auto.
  - destruct (reader e); [destruct r|]; auto.
  - destruct (send_task e); auto; destruct (event e); auto.
Qed.

(** X7. [_run] catches [CancelledError] alone: when a message makes it
    raise (a size that does not fit sixteen bits, a write on a broken
    descriptor), the task is over and no later message is handled, so
    the PTY stays as that turn left it, whatever follows. *)
Theorem failed_turn_ends_input (msg : InMsg) (e : Emulator)
        (evs : list Event) :
  run_task e = Waiting ->
  snd (dispatch msg (pty e)) <> None ->
  pty (run evs (step e (Inbound msg))) = fst (dispatch msg (pty e)) /\
  run_task (run evs (step e (Inbound msg))) = Finished.
Proof.
  intros Hrun Hexn.
  assert (H0 : run_task (step e (Inbound msg)) = Finished /\
               pty (step e (Inbound msg)) = fst (dispatch msg (pty e))).
  { simpl. rewrite Hrun. unfold run_turn.
    destruct (dispatch msg (pty e)) as [q [x|]]; simpl in *; auto.
    congruence. }
  destruct H0 as [Hf Hp]. rewrite <- Hp. clear Hp.
  revert Hf. generalize (step e (Inbound msg)). clear.
  induction evs as [|ev evs IH]; intros e Hf; [auto|].
  simpl. destruct (finished_run_keeps_pty e ev Hf) as [Hf' Hp'].
  destruct (IH _ Hf') as [IH1 IH2]. split; congruence.
Qed.

(** *** Errors that are not reported *)

Lemma intact_start p : Intact (start p).
Proof.
  repeat split; simpl; try discriminate. intros [].
Qed.

Lemma intact_step e ev :
  read_fails ev = false -> Intact e -> Intact (step e ev).
Proof.
  intros Hev (Hd & Hq & Hr).
  destruct e as [d evt rd rt st q pt]; simpl in *.
  assert (Hput : forall m, m <> Disconnect ->
                           ~ In Disconnect (q ++ [m])%list).
  { intros m Hm H. apply in_app_or in H. destruct H as [H | H].
    - exact (Hq H).
    - destruct H as [H | []]. exact (Hm H). }
  destruct ev as [|r|msg| |]; simpl.
  - (* RunStart *)
    destruct rt; repeat split; simpl; auto.
    apply Hput. discriminate.
  - (* Readable *)
    destruct rd; [|repeat split; auto].
    destruct r; [| |discriminate]; repeat split; simpl; auto.
    discriminate.
  - (* Inbound *)
    destruct rt; try (repeat split; simpl; auto; fail).
    unfold run_turn; simpl. destruct (dispatch msg pt) as [pt' [x|]];
      repeat split; simpl; auto; discriminate.
  - (* RelayWake *)
    destruct st; try (repeat split; simpl; auto; fail);
      destruct evt; repeat split; simpl; auto; try discriminate;
      apply Hput; (destruct d; [discriminate | now destruct Hd]).
  - (* Stop *)
    repeat split; simpl; auto. discriminate.
Qed.

Lemma intact_run evs e :
  existsb read_fails evs = false -> Intact e -> Intact (run evs e).
Proof.
  revert e. induction evs as [|ev evs IH]; simpl; intros e H I; [exact I|].
  apply orb_false_iff in H as [Hev Hevs].
  apply IH; [exact Hevs | now apply intact_step].
Qed.

Lemma finished_run evs e :
  run_task e = Finished -> run_task (run evs e) = Finished.
Proof.
  revert e. induction evs as [|ev evs IH]; simpl; intros e H; [exact H|].
  apply IH, (finished_run_keeps_pty e ev H).
Qed.

(** C9. A write that the descriptor refuses (the pipe is broken) raises
    [OSError] in [_run], which catches [CancelledError] alone: the task
    is over, with the reader still registered and nothing put on the
    queue. Whatever follows, no [Disconnect] is put there unless a read
    of the descriptor raises; an end of file that is read as an empty
    string is forwarded as [Stdout] of the empty string. *)
Theorem write_error_emits_no_disconnect
        (p : Pty) (evs later : list Event) (msg : InMsg) :
  let e := run evs (start p) in
  let e' := step e (Inbound msg) in
  run_task e = Waiting ->
  snd (dispatch msg (pty e)) = Some OSError ->
  existsb read_fails (evs ++ later) = false ->
  run_task e' = Finished /\ reader e' = true /\
  send_queue e' = send_queue e /\
  run_task (run later e') = Finished /\
  ~ In Disconnect (send_queue (run later e')) /\
  send_queue (run [Readable (Decoded EmptyString); RelayWake] e') =
  (send_queue e ++ [Stdout EmptyString])%list.
Proof.
  intros e e' Hrun Hexn Hnf.
  rewrite existsb_app in Hnf. apply orb_false_iff in Hnf as [Hevs Hlater].
  assert (I : Intact e) by (apply intact_run; [exact Hevs|apply intact_start]).
  assert (C : Consistent e) by apply consistent_run, consistent_start.
  assert (I' : Intact e') by (apply intact_step; [reflexivity | exact I]).
  destruct I as (_ & _ & Hrd). specialize (Hrd Hrun).
  destruct C as [_ _ _ Hst]. specialize (Hst Hrd).
  assert (E : e' = mkEmulator (data_or_disconnect e) (event e) (reader e)
                              Finished (send_task e) (send_queue e)
                              (fst (dispatch msg (pty e)))).
  { unfold e'. simpl. rewrite Hrun. unfold run_turn.
    destruct (dispatch msg (pty e)) as [q [x|]]; simpl in *;
      [reflexivity | discriminate]. }
  assert (Hf : run_task e' = Finished) by (rewrite E; reflexivity).
  split; [exact Hf|].
  split; [rewrite E; exact Hrd|].
  split; [rewrite E; reflexivity|].
  split; [apply finished_run, Hf|].
  split; [apply (intact_run later e' Hlater I')|].
  rewrite E. simpl. rewrite Hrd. simpl.
  destruct (send_task e); [reflexivity | reflexivity | congruence].
Qed.

(** ** The widget and its surroundings *)

Lemma fold_left_agree {A B : Type} (f g : A -> B -> A) (P : A -> Prop)
      (l : list B) (a : A) :
  P a -> (forall a x, P a -> f a x = g a x /\ P (f a x)) ->
  fold_left f l a = fold_left g l a /\ P (fold_left f l a).
Proof.
  intros Ha Hstep. revert a Ha.
  induction l as [|x l IH]; intros a Ha; [auto|].
  simpl. destruct (Hstep a x Ha) as [E Hp]. rewrite <- E. now apply IH.
Qed.

Lemma char_rich_style_app_free cp app1 app2 dc cache ch :
  is_textual dc = false \/ (exists c, cache = Some c) ->
  char_rich_style cp app1 dc cache ch = char_rich_style cp app2 dc cache ch
  /\ snd (char_rich_style cp app1 dc cache ch) = cache.
Proof.
  intros H. unfold char_rich_style.
  destruct (is_textual dc) eqn:Et.
  - destruct H as [H | [c ->]]; [discriminate|]. simpl.
    now destruct (make_style _ _ _ _).
  - now destruct (make_style _ _ _ _).
Qed.

Lemma column_step_app_free cp app1 app2 dc cache scr y st x :
  is_textual dc = false \/ (exists c, cache = Some c) ->
  colors_cache st = cache ->
  column_step cp app1 dc scr y st x = column_step cp app2 dc scr y st x /\
  colors_cache (column_step cp app1 dc scr y st x) = cache.
Proof.
  intros H Hc. unfold column_step.
  destruct (char_rich_style_app_free cp app1 app2 dc cache
              (buffer scr y (x - 1)) H) as [E1 E2].
  rewrite Hc, <- E1.
  destruct (0 <? x);
    [destruct (negb _ || _);
     [destruct (char_rich_style cp app1 dc cache _) as [sty c];
      simpl in E2; subst c|]|];
    destruct (_ && _); simpl; auto.
Qed.

Lemma render_app_free cp app1 app2 dc cache scr :
  is_textual dc = false \/ (exists c, cache = Some c) ->
  render cp app1 dc scr cache = render cp app2 dc scr cache /\
  snd (render cp app1 dc scr cache) = cache.
Proof.
  intros H. unfold render.
  apply (fold_left_agree _ _ (fun acc => snd acc = cache)); [reflexivity|].
  intros acc y Hacc. unfold render_step, render_row. rewrite Hacc.
  destruct (fold_left_agree
              (column_step cp app1 dc scr y) (column_step cp app2 dc scr y)
              (fun st => colors_cache st = cache)
              (seq 0 (columns scr)) (mkRow Rich.empty 0 cache) eq_refl)
    as [E Hc].
  - intros st x Hst. now apply column_step_app_free.
  - rewrite <- E. simpl. auto.
Qed.

(** X18. The theme is read once: the first snapshot of the textual mode
    (of a grid of two columns or more) fills the cache with the colours
    of the theme of that moment, and every later snapshot is the one
    these colours give, whatever the theme of the app has become. *)
Theorem theme_is_fixed_by_the_first_snapshot
        (cp : string -> bool) (app1 app2 : App) (dc : option string)
        (scr scr2 : Screen) :
  is_textual dc = true -> 1 <= lines scr -> 2 <= columns scr ->
  snd (render cp app1 dc scr None) = Some (detect_textual_colors app1) /\
  render cp app2 dc scr2 (snd (render cp app1 dc scr None)) =
  render cp app1 dc scr2 (snd (render cp app1 dc scr None)).
Proof.
  intros Ht Hl Hc.
  rewrite (render_fills cp app1 dc scr None Ht Hl Hc).
  split; [reflexivity|].
  apply (render_app_free cp app2 app1). right. eauto.
Qed.

(** X19. In every mode but the textual one the snapshot does not depend
    on the app, and rendering leaves the colour cache as it was: the
    theme is never looked up. *)
Theorem other_modes_ignore_the_theme
        (cp : string -> bool) (app1 app2 : App) (dc : option string)
        (cache : option Colors) (scr : Screen) :
  is_textual dc = false ->
  render cp app1 dc scr cache = render cp app2 dc scr cache /\
  snd (render cp app1 dc scr cache) = cache.
Proof. intros H. apply render_app_free. now left. Qed.

Lemma lower_app a b : lower (a ++ b) = lower a ++ lower b.
Proof. induction a; simpl; congruence. Qed.

Lemma startswith_app needle rest : startswith (needle ++ rest) needle = true.
Proof.
  induction needle as [|c n IH]; [reflexivity|].
  simpl. now rewrite Ascii.eqb_refl, IH.
Qed.

Lemma contains_app needle before rest :
  contains needle (before ++ needle ++ rest) = true.
Proof.
  assert (U : forall hay,
             contains needle hay =
             startswith hay needle ||
             match hay with
             | EmptyString => false
             | String _ r => contains needle r
             end) by (now destruct hay).
  induction before as [|c b IH].
  - cbn [String.append]. now rewrite U, startswith_app.
  - cbn [String.append]. rewrite U, IH. apply orb_true_r.
Qed.

(** X20. Without a theme object the palette is chosen by the name of the
    theme: a name that holds [dark] in any mix of cases gives the dark
    palette; with a theme object its colours are taken as they are. *)
Theorem dark_name_gives_the_dark_palette
        (before word rest : string) (colors : Colors) (name : string) :
  lower word = "dark" ->
  detect_textual_colors (mkApp None (before ++ word ++ rest)) =
  mkColors "#000000" "#ffffff" "#1e1e1e" "#0178d4" /\
  detect_textual_colors (mkApp (Some colors) name) = colors.
Proof.
  intros Hw. split; [|reflexivity].
  unfold detect_textual_colors. cbn [current_theme theme].
  now rewrite !lower_app, Hw, contains_app.
Qed.

(** X3. The handshake: [_run] opens with [Setup], the widget answers
    [Setup] with its rows and columns and is left as it was, and the
    turn of [_run] on that answer sets the window of the PTY to these
    rows and columns. *)
Theorem handshake_sets_the_window
        (cp : string -> bool) (feed : string -> Screen -> Screen)
        (app : App) (t : Terminal) (p : Pty) :
  (Z.of_nat (nrow t) <= 65535)%Z -> (Z.of_nat (ncol t) <= 65535)%Z ->
  send_queue (step (start p) RunStart) = [Setup] /\
  recv cp feed app Setup t =
  (t, [SetSize (Z.of_nat (nrow t)) (Z.of_nat (ncol t))]) /\
  pty (run (map Inbound (snd (recv cp feed app Setup t)))
           (step (start p) RunStart)) =
  mkPty (delivered p) (Some (Z.of_nat (nrow t), Z.of_nat (ncol t)))
        (script p).
Proof.
  intros Hr Hc. split; [reflexivity|]. split; [reflexivity|].
  cbn [recv snd map run fold_left step start run_task run_begin].
  unfold run_turn. cbn [pty].
  rewrite dispatch_set_size; [reflexivity|].
  unfold in_u16. apply andb_true_iff.
  split; apply andb_true_iff; split; apply Z.leb_le; lia.
Qed.

(** ** More properties on sample inputs *)

Lemma scroll_writes_one_press_witness :
  dispatch (Scroll "up" 5 3) pty0 =
  (mkPty (String ESC "[<64;6;4M") None [], None) /\
  dispatch (Scroll "down" 0 0) pty0 =
  (mkPty (String ESC "[<65;1;1M") None [], None) /\
  dispatch (Scroll "left" 5 3) pty0 = (pty0, None).
Proof.
  split; [|split].
  - exact (scroll_writes_one_press "up" 5 3 pty0 eq_refl).
  - exact (scroll_writes_one_press "down" 0 0 pty0 eq_refl).
  - exact (scroll_writes_one_press "left" 5 3 pty0 eq_refl).
Defined.

Lemma stdin_stream_in_order_witness :
  delivered
    (pty (run (map (fun text => Inbound (Stdin text)) ["ls"; " "; "-l"])
              waiting_emulator)) = "ls -l".
Proof.
  exact (proj1 (stdin_stream_in_order ["ls"; " "; "-l"] waiting_emulator
                  eq_refl eq_refl)).
Defined.

Lemma handshake_sets_the_window_witness :
  window
    (pty (run (map Inbound
                   (snd (recv every_color idle_feed dark_app Setup
                              (new_terminal (Some "system")))))
              (step (start pty0) RunStart))) = Some (24%Z, 80%Z).
Proof.
  destruct (handshake_sets_the_window every_color idle_feed dark_app
              (new_terminal (Some "system")) pty0) as (_ & _ & H).
  - simpl. lia.
  - simpl. lia.
  - now rewrite H.
Defined.

Lemma relay_forwards_the_last_chunk_witness :
  send_queue
    (run (map (fun text => Readable (Decoded text)) (["a"; "b"] ++ ["c"])
          ++ [RelayWake]) waiting_emulator) = [Setup; Stdout "c"].
Proof.
  rewrite (relay_forwards_the_last_chunk ["a"; "b"] "c" waiting_emulator).
  - reflexivity.
  - reflexivity.
  - discriminate.
Defined.

Lemma failed_turn_ends_input_witness :
  pty (run [Inbound (Stdin "lost"); Inbound (SetSize 24 80)]
           (step waiting_emulator (Inbound (SetSize (-1) 80)))) = pty0 /\
  run_task (run [Inbound (Stdin "lost"); Inbound (SetSize 24 80)]
                (step waiting_emulator (Inbound (SetSize (-1) 80)))) =
  Finished.
Proof.
  apply (failed_turn_ends_input (SetSize (-1) 80) waiting_emulator
           [Inbound (Stdin "lost"); Inbound (SetSize 24 80)]).
  - reflexivity.
  - discriminate.
Defined.

Lemma char_style_cmp_is_an_equivalence_witness :
  char_style_cmp (red_cell "a") (red_cell "b") = true /\
  fst (char_rich_style every_color dark_app None None (red_cell "a")) =
  fst (char_rich_style every_color dark_app None None (red_cell "b")).
Proof.
  split; [reflexivity|].
  apply (char_style_cmp_is_an_equivalence every_color dark_app None None
           (red_cell "a") (red_cell "b") (red_cell "c")).
  reflexivity.
Defined.

Lemma unstyled_cells_leave_the_overlay_witness :
  Forall (fun line => Forall (fun sp => style sp = reverse_style)
                             (spans line))
         (fst (render no_color dark_app None blank_row None)).
Proof.
  apply (unstyled_cells_leave_the_overlay no_color dark_app None None
           blank_row).
  intros y x _ _. reflexivity.
Defined.

Lemma sample_rows_one_char rows cursor :
  Forall (Forall (fun c => cell_width c = 1)) rows ->
  Forall (fun row => List.length row = 3) rows ->
  one_char_cells (mkScreen (List.length rows) 3 (buffer_of rows) cursor).
Proof.
  intros Hw Hl y x Hy Hx. simpl in *. unfold buffer_of.
  rewrite Forall_forall in Hw, Hl.
  assert (Hin : In (nth y rows []) rows) by now apply nth_In.
  specialize (Hw _ Hin). specialize (Hl _ Hin).
  rewrite Forall_forall in Hw. apply Hw. apply nth_In. lia.
Qed.

Lemma cells_are_rendered_in_their_style_witness :
  style_at (nth 0 (fst (render every_color dark_app None row_red_blue_blue
                               None)) Rich.empty) 1 = blue_style.
Proof.
  rewrite (cells_are_rendered_in_their_style every_color dark_app None None
             row_red_blue_blue 0 1).
  - reflexivity.
  - apply (sample_rows_one_char
             [[red_cell "a"; blue_cell "b"; blue_cell "c"]]);
      repeat constructor.
  - intros y x Hy Hx. simpl in Hy, Hx.
    destruct y as [|y]; [|lia].
    destruct x as [|[|[|x]]]; reflexivity.
  - simpl. lia.
  - simpl. lia.
Defined.

Lemma last_cell_is_rendered_as_the_one_before_witness :
  style_at (nth 0 (fst (render every_color dark_app None row_red_red_blue
                               None)) Rich.empty) 2 = red_style.
Proof.
  assert (Hcells : one_char_cells row_red_red_blue)
    by (apply (sample_rows_one_char
                 [[red_cell "a"; red_cell "b"; blue_cell "c"]]);
        repeat constructor).
  assert (Hfull : forall y x,
             y < lines row_red_red_blue -> x < columns row_red_red_blue ->
             truthy (fst (char_rich_style every_color dark_app None None
                            (buffer row_red_red_blue y x))) = true).
  { intros y x Hy Hx. simpl in Hy, Hx.
    destruct y as [|y]; [|lia].
    destruct x as [|[|[|x]]]; reflexivity. }
  exact (last_cell_is_rendered_as_the_one_before every_color dark_app
           None None row_red_red_blue 0 Hcells Hfull
           (Nat.lt_0_succ 0) (le_S 2 2 (le_n 2))).
Defined.

Lemma mouse_events_follow_the_mode_witness :
  on_click 5 3 1
    (fst (recv every_color idle_feed dark_app (Stdout (String ESC "[?1000h"))
               started_terminal)) = [Click 5 3 1] /\
  on_click 5 3 1
    (fst (recv every_color idle_feed dark_app (Stdout EmptyString)
               started_terminal)) = [].
Proof.
  split.
  - apply (proj1 (mouse_events_follow_the_mode every_color idle_feed dark_app
                    started_terminal (String ESC "[?1000h") "up" 5 3 1
                    eq_refl)).
    exists EmptyString, EmptyString, EmptyString.
    split; [reflexivity|]. split; [reflexivity|].
    split; [now left|].
    split; apply no_decset_in_empty.
  - apply (proj2 (proj2 (mouse_events_follow_the_mode every_color idle_feed
                           dark_app started_terminal EmptyString "up" 5 3 1
                           eq_refl)));
      apply no_decset_in_empty.
Defined.

Lemma mapped_key_sends_its_sequence_witness :
  on_key true (mkKeyEvent "up" None) started_terminal =
  mkKeyOutcome true false false [Stdin (String ESC "OA")].
Proof.
  exact (proj1 (mapped_key_sends_its_sequence true (mkKeyEvent "up" None)
                  started_terminal (String ESC "OA") eq_refl eq_refl)).
Defined.

Lemma send_input_outlives_stop_witness :
  send_input "ls"
    (stop_widget (start_widget (mkWidget (new_terminal None) false))) =
  [Stdin "ls"].
Proof.
  exact (proj1 (send_input_outlives_stop
                  "ls" (mkWidget (new_terminal None) false) eq_refl)).
Defined.

Lemma theme_is_fixed_by_the_first_snapshot_witness :
  snd (render every_color dark_app (Some "textual") blank_row None) =
  Some (mkColors "#000000" "#ffffff" "#1e1e1e" "#0178d4") /\
  render every_color light_app (Some "textual") blank_row
         (snd (render every_color dark_app (Some "textual") blank_row None))
  = render every_color dark_app (Some "textual") blank_row
           (snd (render every_color dark_app (Some "textual") blank_row
                        None)).
Proof.
  apply (theme_is_fixed_by_the_first_snapshot every_color dark_app light_app
           (Some "textual") blank_row blank_row);
    [reflexivity | simpl; lia | simpl; lia].
Defined.

Lemma other_modes_ignore_the_theme_witness :
  render every_color dark_app (Some "system") blank_row None =
  render every_color light_app (Some "system") blank_row None.
Proof.
  exact (proj1 (other_modes_ignore_the_theme every_color dark_app light_app
                  (Some "system") None blank_row eq_refl)).
Defined.

Lemma dark_name_gives_the_dark_palette_witness :
  detect_textual_colors (mkApp None "Solarized-DARK") =
  mkColors "#000000" "#ffffff" "#1e1e1e" "#0178d4".
Proof.
  exact (proj1 (dark_name_gives_the_dark_palette
                  "Solarized-" "DARK" EmptyString
                  (mkColors "" "" "" "") EmptyString eq_refl)).
Defined.

Lemma write_error_emits_no_disconnect_witness :
  run_task
    (run [Readable (Decoded EmptyString); RelayWake; Inbound (Stdin "y")]
         (run [RunStart; Inbound (Stdin "x")] (start pty_broken))) =
  Finished /\
  ~ In Disconnect
       (send_queue
          (run [Readable (Decoded EmptyString); RelayWake;
                Inbound (Stdin "y")]
               (run [RunStart; Inbound (Stdin "x")] (start pty_broken)))) /\
  send_queue
    (run [Readable (Decoded EmptyString); RelayWake]
         (run [RunStart; Inbound (Stdin "x")] (start pty_broken))) =
  [Setup; Stdout EmptyString].
Proof.
  destruct (write_error_emits_no_disconnect
              pty_broken [RunStart]
              [Readable (Decoded EmptyString); RelayWake;
               Inbound (Stdin "y")]
              (Stdin "x") eq_refl eq_refl eq_refl)
    as (_ & _ & _ & Hf & Hq & Heof).
  split; [exact Hf|]. split; [exact Hq | exact Heof].
Defined.
